(** * gogemini: the streaming handler of the Telegram relay

    A shallow embedding of the [tele.OnText] handler of the bot: the
    event-line decoder [parseSSEResponse], the scan loop that folds the
    fragments of a streamed answer into [fullResponse] and pushes throttled
    edits, the finalization that performs the last edit and calls
    [saveMessage], and the history clean-up that precedes the request.
    The scan loop and the finalization are the same in the versions of
    [main.go] that stream the answer; the clean-up is modelled from the
    version that has [cleanupMessageHistory], whose [saveMessage] takes the
    sender as one more argument.

    Go strings are byte strings: they are modelled by [string] (one [ascii]
    per byte).  Times are readings of the monotonic clock in nanoseconds,
    modelled by [Z], as is [time.Duration]. *)

From Stdlib Require Import ZArith List String Ascii Bool Lia DecimalString.
Import ListNotations.
Open Scope string_scope.

Set Warnings "-register-all".
Set Warnings "-automation".

(** ** The [strings] functions used by the decoder *)

Module Strings.

(** [strings.HasPrefix]. *)
Definition HasPrefix (s p : string) : bool := String.prefix p s.

Fixpoint drop (n : nat) (s : string) : string :=
  match n, s with
  | O, _ => s
  | S _, EmptyString => EmptyString
  | S k, String _ r => drop k r
  end.

(** [strings.TrimPrefix]: [s] without the leading [p], or [s] itself. *)
Definition TrimPrefix (s p : string) : string :=
  if HasPrefix s p then drop (String.length p) s else s.

Fixpoint mem (c : ascii) (cutset : string) : bool :=
  match cutset with
  | EmptyString => false
  | String d r => Ascii.eqb c d || mem c r
  end.

(** [strings.TrimLeft]: the cutsets used here are ASCII, for which the
    rune-wise trimming of Go is the byte-wise one. *)
Fixpoint TrimLeft (s cutset : string) : string :=
  match s with
  | EmptyString => EmptyString
  | String c r => if mem c cutset then TrimLeft r cutset else s
  end.

End Strings.

(** ** Data model (the structs of the program) *)

Record Part := { Text : string }.

Record Content := { Role : string; Parts : list Part }.

(** One element of [GeminiResponse.Candidates]: its [Content.Parts]. *)
Record Candidate := { CandidateParts : list Part }.

Record GeminiResponse := { Candidates : list Candidate }.

Record Message := { MessageRole : string; MessageText : string }.

Record UserMessages := {
  ID : Z;
  TelegramID : Z;
  Username : string;
  Messages : list Message
}.

(** ** A reader for the JSON the endpoint sends

    [json.Unmarshal] belongs to the Go library.  The handler below is
    parameterised by it; this module gives a reader for the event shape
    [{candidates:[{content:{parts:[{text:string}]}}]}] on which the handler
    can be run on concrete streams.  It follows [encoding/json] on what the
    shape exercises: unknown members are read and ignored, absent members and
    [null] leave the zero value, a member of the wrong kind is an error, keys
    match up to ASCII case, text after the value is an error.  Escapes of
    the form [\uXXXX] are outside its subset and are rejected. *)

Module Json.

Inductive value :=
| Null
| Bool (b : bool)
| Number
| Str (s : string)
| Array (l : list value)
| Object (l : list (string * value)).

Definition is_ws (c : ascii) : bool :=
  Strings.mem c (String " " (String "009" (String "010" (String "013" ""))))%char.

Fixpoint skip_ws (s : string) : string :=
  match s with
  | String c r => if is_ws c then skip_ws r else s
  | EmptyString => s
  end.

Definition is_digit (c : ascii) : bool :=
  let n := nat_of_ascii c in (48 <=? n)%nat && (n <=? 57)%nat.

Fixpoint skip_digits (s : string) : string :=
  match s with
  | String c r => if is_digit c then skip_digits r else s
  | EmptyString => s
  end.

(** At least one digit, then the rest. *)
Definition digits1 (s : string) : option string :=
  match s with
  | String c r => if is_digit c then Some (skip_digits r) else None
  | EmptyString => None
  end.

Definition read_frac (s : string) : option string :=
  match s with
  | String "."%char r => digits1 r
  | _ => Some s
  end.

Definition read_exp (s : string) : option string :=
  match s with
  | String c r =>
      if Ascii.eqb c "e"%char || Ascii.eqb c "E"%char then
        match r with
        | String d r' =>
            if Ascii.eqb d "+"%char || Ascii.eqb d "-"%char
            then digits1 r' else digits1 r
        | EmptyString => None
        end
      else Some s
  | EmptyString => Some s
  end.

Definition read_int (s : string) : option string :=
  match s with
  | String "0"%char r => Some r
  | _ => digits1 s
  end.

Definition read_number (s : string) : option string :=
  let s := match s with String "-"%char r => r | _ => s end in
  match read_int s with
  | Some r => match read_frac r with
              | Some r' => read_exp r'
              | None => None
              end
  | None => None
  end.

Definition unescape (c : ascii) : option ascii :=
  if Ascii.eqb c "034"%char then Some "034"%char
  else if Ascii.eqb c "\"%char then Some "\"%char
  else if Ascii.eqb c "/"%char then Some "/"%char
  else if Ascii.eqb c "b"%char then Some "008"%char
  else if Ascii.eqb c "f"%char then Some "012"%char
  else if Ascii.eqb c "n"%char then Some "010"%char
  else if Ascii.eqb c "r"%char then Some "013"%char
  else if Ascii.eqb c "t"%char then Some "009"%char
  else None.

(** The characters of a string literal after its opening quote, and the
    input after its closing quote. *)
Fixpoint read_chars (s : string) : option (string * string) :=
  match s with
  | EmptyString => None
  | String c r =>
      if Ascii.eqb c "034"%char then Some (EmptyString, r)
      else if Ascii.eqb c "\"%char then
        match r with
        | String e r' =>
            match unescape e, read_chars r' with
            | Some x, Some (t, rest) => Some (String x t, rest)
            | _, _ => None
            end
        | EmptyString => None
        end
      else if (nat_of_ascii c <? 32)%nat then None
      else match read_chars r with
           | Some (t, rest) => Some (String c t, rest)
           | None => None
           end
  end.

Definition reader := string -> option (value * string).

(** Elements of an array after the first, up to the closing bracket. *)
Fixpoint read_elements (n : nat) (rv : reader) (s : string)
  : option (list value * string) :=
  match n with
  | O => None
  | S k =>
      match skip_ws s with
      | String "]"%char r => Some ([], r)
      | String ","%char r =>
          match rv r with
          | Some (v, r') =>
              match read_elements k rv r' with
              | Some (vs, rest) => Some (v :: vs, rest)
              | None => None
              end
          | None => None
          end
      | _ => None
      end
  end.

Definition read_member (rv : reader) (s : string)
  : option ((string * value) * string) :=
  match skip_ws s with
  | String c r =>
      if Ascii.eqb c "034"%char then
        match read_chars r with
        | Some (k, r') =>
            match skip_ws r' with
            | String ":"%char r'' =>
                match rv r'' with
                | Some (v, rest) => Some ((k, v), rest)
                | None => None
                end
            | _ => None
            end
        | None => None
        end
      else None
  | EmptyString => None
  end.

Fixpoint read_members (n : nat) (rv : reader) (s : string)
  : option (list (string * value) * string) :=
  match n with
  | O => None
  | S k =>
      match skip_ws s with
      | String "}"%char r => Some ([], r)
      | String ","%char r =>
          match read_member rv r with
          | Some (m, r') =>
              match read_members k rv r' with
              | Some (ms, rest) => Some (m :: ms, rest)
              | None => None
              end
          | None => None
          end
      | _ => None
      end
  end.

Fixpoint read_value (n : nat) (s : string) : option (value * string) :=
  match n with
  | O => None
  | S k =>
      match skip_ws s with
      | EmptyString => None
      | String c r =>
          if Ascii.eqb c "{"%char then
            match skip_ws r with
            | String "}"%char r' => Some (Object [], r')
            | _ =>
                match read_member (read_value k) r with
                | Some (m, r') =>
                    match read_members k (read_value k) r' with
                    | Some (ms, rest) => Some (Object (m :: ms), rest)
                    | None => None
                    end
                | None => None
                end
            end
          else if Ascii.eqb c "["%char then
            match skip_ws r with
            | String "]"%char r' => Some (Array [], r')
            | _ =>
                match read_value k r with
                | Some (v, r') =>
                    match read_elements k (read_value k) r' with
                    | Some (vs, rest) => Some (Array (v :: vs), rest)
                    | None => None
                    end
                | None => None
                end
            end
          else if Ascii.eqb c "034"%char then
            match read_chars r with
            | Some (t, rest) => Some (Str t, rest)
            | None => None
            end
          else if String.prefix "true" (String c r) then
            Some (Bool true, Strings.drop 4 (String c r))
          else if String.prefix "false" (String c r) then
            Some (Bool false, Strings.drop 5 (String c r))
          else if String.prefix "null" (String c r) then
            Some (Null, Strings.drop 4 (String c r))
          else
            match read_number (String c r) with
            | Some rest => Some (Number, rest)
            | None => None
            end
      end
  end.

(** The whole input is one value. *)
Definition parse (s : string) : option value :=
  match read_value (S (String.length s)) s with
  | Some (v, rest) =>
      match skip_ws rest with
      | EmptyString => Some v
      | _ => None
      end
  | None => None
  end.

Definition lower (c : ascii) : ascii :=
  let n := nat_of_ascii c in
  if (65 <=? n)%nat && (n <=? 90)%nat then ascii_of_nat (n + 32) else c.

Fixpoint fold_eqb (a b : string) : bool :=
  match a, b with
  | EmptyString, EmptyString => true
  | String x a', String y b' => Ascii.eqb (lower x) (lower y) && fold_eqb a' b'
  | _, _ => false
  end.

(** Decoding the members of an object into a struct: each member whose key
    names the field is decoded into the current value of the field, the
    others are skipped; one failure fails the whole. *)
Fixpoint fields {A} (key : string) (into : A -> value -> option A)
  (cur : A) (ms : list (string * value)) : option A :=
  match ms with
  | [] => Some cur
  | (k, v) :: rest =>
      if fold_eqb k key then
        match into cur v with
        | Some cur' => fields key into cur' rest
        | None => None
        end
      else fields key into cur rest
  end.

Fixpoint each {A} (elem : value -> option A) (vs : list value)
  : option (list A) :=
  match vs with
  | [] => Some []
  | v :: rest =>
      match elem v, each elem rest with
      | Some a, Some l => Some (a :: l)
      | _, _ => None
      end
  end.

Definition into_string (cur : string) (v : value) : option string :=
  match v with
  | Null => Some cur
  | Str s => Some s
  | _ => None
  end.

Definition into_Part (cur : Part) (v : value) : option Part :=
  match v with
  | Null => Some cur
  | Object ms =>
      option_map (fun t => {| Text := t |})
                 (fields "text" into_string (Text cur) ms)
  | _ => None
  end.

Definition into_Parts (cur : list Part) (v : value) : option (list Part) :=
  match v with
  | Null => Some []
  | Array vs => each (into_Part {| Text := "" |}) vs
  | _ => None
  end.

(** The anonymous struct [Content] of a candidate. *)
Definition into_content (cur : list Part) (v : value) : option (list Part) :=
  match v with
  | Null => Some cur
  | Object ms => fields "parts" into_Parts cur ms
  | _ => None
  end.

Definition into_Candidate (cur : Candidate) (v : value) : option Candidate :=
  match v with
  | Null => Some cur
  | Object ms =>
      option_map (fun ps => {| CandidateParts := ps |})
                 (fields "content" into_content (CandidateParts cur) ms)
  | _ => None
  end.

Definition into_Candidates (cur : list Candidate) (v : value)
  : option (list Candidate) :=
  match v with
  | Null => Some []
  | Array vs => each (into_Candidate {| CandidateParts := [] |}) vs
  | _ => None
  end.

Definition into_GeminiResponse (cur : GeminiResponse) (v : value)
  : option GeminiResponse :=
  match v with
  | Null => Some cur
  | Object ms =>
      option_map (fun cs => {| Candidates := cs |})
                 (fields "candidates" into_Candidates (Candidates cur) ms)
  | _ => None
  end.

(** [json.Unmarshal([]byte(data), &resp)] on a zero [resp]: the decoded
    response, or [None] for an error. *)
Definition Unmarshal (data : string) : option GeminiResponse :=
  match parse data with
  | Some v => into_GeminiResponse {| Candidates := [] |} v
  | None => None
  end.

(** Writing an event the way the endpoint does, for plain texts (no
    quote, backslash or control byte). *)
Definition dq : string := String "034"%char EmptyString.

Definition quoted (s : string) : string := dq ++ s ++ dq.

Fixpoint commas (l : list string) : string :=
  match l with
  | [] => ""
  | [x] => x
  | x :: rest => x ++ "," ++ commas rest
  end.

Definition write_Part (p : Part) : string :=
  "{" ++ quoted "text" ++ ": " ++ quoted (Text p) ++ "}".

Definition write_Candidate (c : Candidate) : string :=
  "{" ++ quoted "content" ++ ": {" ++ quoted "parts" ++ ": ["
      ++ commas (map write_Part (CandidateParts c)) ++ "],"
      ++ quoted "role" ++ ": " ++ quoted "model" ++ "}}".

Definition write_GeminiResponse (r : GeminiResponse) : string :=
  "{" ++ quoted "candidates" ++ ": ["
      ++ commas (map write_Candidate (Candidates r)) ++ "]}".

End Json.

(** ** Effects of the handler

    What the handler writes to the log, and the calls it makes to the bot
    (outbound chat transport), to the history store and to the generation
    endpoint, in the order it makes them. *)

Inductive LogMsg :=
| LogRawLine (line : string)        (* Raw line: %s *)
| LogRawData (data : string)        (* Raw data causing error: %q *)
| LogParseError                     (* Error parsing SSE response *)
| LogChunk (chunk : string)         (* Received chunk: %s *)
| LogSendError                      (* Error sending first chunk *)
| LogUpdateError                    (* Error updating message *)
| LogFinalError                     (* Error sending final update *)
| LogSaveError                      (* Error saving messages *)
| LogStatus (code : Z)              (* Unexpected status code: %d *)
| LogErrorMessageError (edit : bool) (* Error sending error message, after
                                       b.Edit (true) or c.Send (false) *)
| LogPrevMessagesError              (* Error getting previous messages *)
| LogCleanupStart (telegramID : Z)  (* ... exceeds 100 messages, cleaning up *)
| LogCleanupDone (telegramID : Z)   (* Successfully cleaned up ... *)
| LogCleanupError                   (* Error during message cleanup *)
| LogRequestError.                  (* Error making request to Gemini API *)

(** The [error] values the modelled functions return. *)
Inductive error :=
| UnmarshalError     (* unmarshal error: %v *)
| SendError          (* the error of b.Send or c.Send *)
| UrlNotSet          (* MOKKY_URL environment variable is not set *)
| HttpError          (* a failed round trip, or a status other than 200 *)
| NoHistory          (* no history found for this user *)
| CleanupError (e : error).  (* error cleaning up message history: %v *)

(** A [*tele.Message] is represented by the id of the message. *)
Definition TeleMessage := Z.

(** [stamp] is the clock reading stored in [lastUpdate] right after the
    call, where the handler takes one. *)
Inductive Call :=
| Send (text : string) (res : option TeleMessage) (stamp : option Z)
| Edit (m : option TeleMessage) (text : string) (ok : bool) (stamp : option Z)
| Reply (text : string) (ok : bool)              (* c.Send *)
| SaveMessage (telegramID : Z) (userMsg aiMsg : string) (ok : bool)
| DeleteUserHistory (telegramID : Z) (err : option error)
| Generate (contents : list Content).            (* client.Do(req) *)

(** The body of the HTTP response as the [bufio.Scanner] delivers it: the
    lines it yields before [Scan] returns false, and whether it stopped on a
    read error rather than at the end of the stream ([scanner.Err()]). *)
Record Response := {
  StatusCode : Z;
  lines : list string;
  readError : bool
}.

(** The collaborators of one run of the handler. *)
Record Env := {
  clock : nat -> Z;                        (* the successive clock readings *)
  sendResult : string -> option TeleMessage;     (* b.Send(recipient, text) *)
  editResult : nat -> string -> bool;      (* the k-th b.Edit, on its text *)
  replyResult : string -> bool;            (* c.Send(text) *)
  saveResult : bool;                       (* saveMessage *)
  doResult : list Content -> option Response     (* client.Do(req) *)
}.

(** The history store: whether [MOKKY_URL] is set, which of its successive
    round trips succeed (the request goes through and, for a write, the
    status is 200), how many were made, and the user records it holds. *)
Record Mokky := {
  urlSet : bool;
  up : nat -> bool;
  trips : nat;
  users : list UserMessages
}.

(** The local variables of the handler, with the effects so far. *)
Record Vars := {
  fullResponse : string;
  msg : option TeleMessage;
  lastUpdate : Z;
  firstChunk : bool;
  reads : nat;            (* clock readings taken so far *)
  edits : nat;            (* b.Edit calls made so far *)
  calls : list Call;
  logs : list LogMsg
}.

(** How an iteration of the scan loop ends: [continue] or falling off the
    end of the body, or [return err]. *)
Inductive Flow :=
| Next (v : Vars)
| Return (v : Vars) (err : option error).

Definition log (m : LogMsg) (v : Vars) : Vars :=
  {| fullResponse := fullResponse v; msg := msg v; lastUpdate := lastUpdate v;
     firstChunk := firstChunk v; reads := reads v; edits := edits v;
     calls := calls v; logs := logs v ++ [m] |}.

Definition call (c : Call) (v : Vars) : Vars :=
  {| fullResponse := fullResponse v; msg := msg v; lastUpdate := lastUpdate v;
     firstChunk := firstChunk v; reads := reads v; edits := edits v;
     calls := calls v ++ [c]; logs := logs v |}.

(** [fullResponse.WriteString(chunk)]. *)
Definition WriteString (chunk : string) (v : Vars) : Vars :=
  {| fullResponse := fullResponse v ++ chunk; msg := msg v;
     lastUpdate := lastUpdate v; firstChunk := firstChunk v;
     reads := reads v; edits := edits v; calls := calls v; logs := logs v |}.

(** One more reading of the clock has been taken. *)
Definition tick (v : Vars) : Vars :=
  {| fullResponse := fullResponse v; msg := msg v; lastUpdate := lastUpdate v;
     firstChunk := firstChunk v; reads := S (reads v); edits := edits v;
     calls := calls v; logs := logs v |}.

(** [lastUpdate = time.Now()], the reading being [t]. *)
Definition setLastUpdate (t : Z) (v : Vars) : Vars :=
  {| fullResponse := fullResponse v; msg := msg v; lastUpdate := t;
     firstChunk := firstChunk v; reads := S (reads v); edits := edits v;
     calls := calls v; logs := logs v |}.

(** [msg, err = b.Send(...)] succeeded; [firstChunk = false]. *)
Definition sent (m : TeleMessage) (v : Vars) : Vars :=
  {| fullResponse := fullResponse v; msg := Some m; lastUpdate := lastUpdate v;
     firstChunk := false; reads := reads v; edits := edits v;
     calls := calls v; logs := logs v |}.

(** One more [b.Edit] has been made. *)
Definition edited (v : Vars) : Vars :=
  {| fullResponse := fullResponse v; msg := msg v; lastUpdate := lastUpdate v;
     firstChunk := firstChunk v; reads := reads v; edits := S (edits v);
     calls := calls v; logs := logs v |}.

Definition logAll (ms : list LogMsg) (v : Vars) : Vars :=
  fold_left (fun v m => log m v) ms v.

Definition logIf (b : bool) (m : LogMsg) (v : Vars) : Vars :=
  if b then log m v else v.

(** The state at the start of the scan loop, after [pre]: empty builder, nil
    [msg], zero [lastUpdate], [firstChunk] true. *)
Definition start (cs : list Call) (ls : list LogMsg) : Vars :=
  {| fullResponse := ""; msg := None; lastUpdate := 0%Z; firstChunk := true;
     reads := O; edits := O; calls := cs; logs := ls |}.

(** [updateInterval := 500 * time.Millisecond], in nanoseconds. *)
Definition updateInterval : Z := 500 * 1000000.

Definition maxDuration : Z := 2 ^ 63 - 1.
Definition minDuration : Z := - 2 ^ 63.

(** [t.Sub(u)]: the difference, saturated to the range of [time.Duration]. *)
Definition Sub (t u : Z) : Z :=
  Z.max minDuration (Z.min maxDuration (t - u)).

(** The invisible marker appended to the final text: U+200B in UTF-8. *)
Definition marker : string :=
  String "226"%char (String "128"%char (String "139"%char EmptyString)).

(** The cutset of the [TrimLeft] of the decoder: space, tab, CR, LF, NUL,
    ESC. *)
Definition cutset : string :=
  String " "%char (String "009"%char (String "013"%char (String "010"%char
    (String "000"%char (String "027"%char EmptyString))))).

(** ** The history store functions *)

Definition ofUser (telegramID : Z) (u : UserMessages) : bool :=
  (TelegramID u =? telegramID)%Z.

(** The answer of the store to [GET users?telegramId=...]. *)
Definition query (telegramID : Z) (R : Mokky) : list UserMessages :=
  filter (ofUser telegramID) (users R).

(** One more round trip has been made. *)
Definition trip (R : Mokky) : Mokky :=
  {| urlSet := urlSet R; up := up R; trips := S (trips R); users := users R |}.

Definition getUserMessages (telegramID : Z) (R : Mokky)
  : Mokky * (list Message * option error) :=
  if negb (urlSet R) then (R, ([], Some UrlNotSet))
  else if negb (up R (trips R)) then (trip R, ([], Some HttpError))
  else match query telegramID R with
       | u :: _ => (trip R, (Messages u, None))
       | [] => (trip R, ([], None))
       end.

(** The store applying [PATCH users/<id>] with [body]. *)
Definition patch (id : Z) (body : UserMessages) (R : Mokky) : Mokky :=
  {| urlSet := urlSet R; up := up R; trips := trips R;
     users := map (fun r => if (ID r =? id)%Z then body else r) (users R) |}.

Definition deleteUserHistory (telegramID : Z) (R : Mokky)
  : Mokky * option error :=
  if negb (urlSet R) then (R, Some UrlNotSet)
  else if negb (up R (trips R)) then (trip R, Some HttpError)
  else match query telegramID R with
       | [] => (trip R, Some NoHistory)
       | u :: _ =>
           let userMsgs := {| ID := ID u; TelegramID := telegramID;
                              Username := Username u; Messages := [] |} in
           let R := trip R in
           if negb (up R (trips R)) then (trip R, Some HttpError)
           else (patch (ID u) userMsgs (trip R), None)
       end.

Definition cleanupMessageHistory (telegramID : Z) (messages : list Message)
  (R : Mokky) : Mokky * (list Call * list LogMsg) * option error :=
  if (100 <? List.length messages)%nat then
    match deleteUserHistory telegramID R with
    | (R', Some e) =>
        (R', ([DeleteUserHistory telegramID (Some e)],
              [LogCleanupStart telegramID]), Some (CleanupError e))
    | (R', None) =>
        (R', ([DeleteUserHistory telegramID None],
              [LogCleanupStart telegramID; LogCleanupDone telegramID]), None)
    end
  else (R, ([], []), None).

(** The loop that builds [contextMessages], and the append of the new turn. *)
Definition toContent (m : Message) : Content :=
  {| Role := MessageRole m; Parts := [{| Text := MessageText m |}] |}.

Definition contextMessages (prevMessages : list Message) (userMsg : string)
  : list Content :=
  map toContent prevMessages
      ++ [{| Role := "user"; Parts := [{| Text := userMsg |}] |}].

(** ** The decoder, the scan loop and the finalization *)

Section Handler.

(** [json.Unmarshal] into a zero [GeminiResponse]: the response, or [None]
    when it returns an error. *)
Variable json_Unmarshal : string -> option GeminiResponse.

(** The [log.Printf] of the decoder, then its two results. *)
Definition parseSSEResponse (line : string)
  : list LogMsg * (option GeminiResponse * option error) :=
  if negb (Strings.HasPrefix line "data: ") then ([], (None, None))
  else
    let data := Strings.TrimPrefix line "data: " in
    if String.eqb data "[DONE]" then ([], (None, None))
    else
      let data := Strings.TrimLeft data cutset in
      match json_Unmarshal data with
      | None => ([LogRawData data], (None, Some UnmarshalError))
      | Some resp => ([], (Some resp, None))
      end.

Variable E : Env.

(** The part of the loop body from [fullResponse.WriteString(chunk)] on:
    the first chunk is sent as a new message, a later one triggers an edit
    with the whole text when more than [updateInterval] has passed. *)
Definition deliver (chunk : string) (v : Vars) : Flow :=
  let v := WriteString chunk v in
  if firstChunk v then
    match sendResult E chunk with
    | None =>
        Return (log LogSendError (call (Send chunk None None) v))
               (Some SendError)
    | Some m =>
        let t := clock E (reads v) in
        Next (setLastUpdate t (call (Send chunk (Some m) (Some t)) (sent m v)))
    end
  else
    let now := clock E (reads v) in
    let v := tick v in
    if (updateInterval <? Sub now (lastUpdate v))%Z then
      let text := fullResponse v in
      let ok := editResult E (edits v) text in
      let t := clock E (reads v) in
      Next (setLastUpdate t
              (logIf (negb ok) LogUpdateError
                 (call (Edit (msg v) text ok (Some t)) (edited v))))
    else Next v.

(** The chunk of a decoded response: the text of the first part of the
    first candidate, when there is one. *)
Definition chunkOf (resp : GeminiResponse) : option string :=
  match Candidates resp with
  | candidate :: _ =>
      match CandidateParts candidate with
      | part :: _ => Some (Text part)
      | [] => None
      end
  | [] => None
  end.

(** One iteration of [for scanner.Scan()]. *)
Definition body (line : string) (v : Vars) : Flow :=
  let v := log (LogRawLine line) v in
  if String.eqb line "" then Next v
  else
    let '(printed, (geminiResp, err)) := parseSSEResponse line in
    let v := logAll printed v in
    match err with
    | Some _ => Next (log LogParseError v)
    | None =>
        match geminiResp with
        | Some resp =>
            match chunkOf resp with
            | Some chunk => deliver chunk (log (LogChunk chunk) v)
            | None => Next v
            end
        | None => Next v
        end
    end.

(** The loop over the lines the scanner yields. *)
Fixpoint scan (ls : list string) (v : Vars) : Flow :=
  match ls with
  | [] => Next v
  | line :: rest =>
      match body line v with
      | Next v' => scan rest v'
      | Return v' err => Return v' err
      end
  end.

Definition errorText : string := "Error: API returned non-200 status code".
Definition sorryText : string := "Sorry, I couldn't generate a response".

(** The code after the loop. *)
Definition finish (telegramID : Z) (userMsg : string) (statusCode : Z)
  (v : Vars) : Vars * option error :=
  if (0 <? String.length (fullResponse v))%nat then
    let finalText := fullResponse v ++ marker in
    let ok := editResult E (edits v) finalText in
    let v := logIf (negb ok) LogFinalError
               (call (Edit (msg v) finalText ok None) (edited v)) in
    let saved := saveResult E in
    let v := logIf (negb saved) LogSaveError
               (call (SaveMessage telegramID userMsg (fullResponse v) saved) v) in
    (v, None)
  else if negb (statusCode =? 200)%Z then
    let v := log (LogStatus statusCode) v in
    match msg v with
    | Some m =>
        let ok := editResult E (edits v) errorText in
        (logIf (negb ok) (LogErrorMessageError true)
           (call (Edit (Some m) errorText ok None) (edited v)), None)
    | None =>
        let ok := replyResult E errorText in
        (logIf (negb ok) (LogErrorMessageError false)
           (call (Reply errorText ok) v), None)
    end
  else
    match msg v with
    | None =>
        let ok := replyResult E sorryText in
        (call (Reply sorryText ok) v,
         if ok then None else Some SendError)
    | Some _ => (v, None)
    end.

(** The handler from the scanner on: the loop over the lines of the
    response, whose way of ending ([readError]) it never looks at, then
    the code after the loop unless the loop returned. *)
Definition aggregate (telegramID : Z) (userMsg : string) (resp : Response)
  (v : Vars) : Vars * option error :=
  match scan (lines resp) v with
  | Return v' err => (v', err)
  | Next v' => finish telegramID userMsg (StatusCode resp) v'
  end.

Definition connectText : string := "Error connecting to AI service".

(** What a run of the handler gives: the store as the clean-up left it,
    which is the store when the request is issued (the write of
    [saveMessage] is recorded as a call and is not applied to it), the
    variables with the calls and the log, and the error returned. *)
Record Outcome := {
  remote : Mokky;
  final : Vars;
  result : option error
}.

(** The [tele.OnText] handler, for the sender [telegramID] and the text
    [userMsg].  (The typing notification is left out; marshalling the
    request, which holds strings only, and building it do not fail.) *)
Definition OnText (telegramID : Z) (userMsg : string) (R : Mokky) : Outcome :=
  let '(R0, (prevMessages, err)) := getUserMessages telegramID R in
  let ls := match err with Some _ => [LogPrevMessagesError] | None => [] end in
  let '(R', (cs, ls'), err') :=
    cleanupMessageHistory telegramID prevMessages R0 in
  let ls := (ls ++ ls'
               ++ match err' with Some _ => [LogCleanupError] | None => [] end)%list in
  let contents := contextMessages prevMessages userMsg in
  let cs := (cs ++ [Generate contents])%list in
  match doResult E contents with
  | None =>
      let ok := replyResult E connectText in
      {| remote := R';
         final := call (Reply connectText ok) (start cs (ls ++ [LogRequestError])%list);
         result := if ok then None else Some SendError |}
  | Some resp =>
      let '(v, r) := aggregate telegramID userMsg resp (start cs ls) in
      {| remote := R'; final := v; result := r |}
  end.

End Handler.

(** ** Observations on a run *)

(** The fragment a line contributes: the chunk of the response it decodes
    to, if it decodes to one that has a first candidate with a first part. *)
Definition fragment (U : string -> option GeminiResponse) (line : string)
  : option string :=
  match snd (parseSSEResponse U line) with
  | (Some resp, None) => chunkOf resp
  | _ => None
  end.

Fixpoint fragments (U : string -> option GeminiResponse) (ls : list string)
  : list string :=
  match ls with
  | [] => []
  | line :: rest =>
      match fragment U line with
      | Some chunk => chunk :: fragments U rest
      | None => fragments U rest
      end
  end.

(** Concatenation in order. *)
Fixpoint cat (l : list string) : string :=
  match l with
  | [] => ""
  | s :: rest => s ++ cat rest
  end.

Definition varsOf (f : Flow) : Vars :=
  match f with
  | Next v => v
  | Return v _ => v
  end.

Definition stampOf (c : Call) : option Z :=
  match c with
  | Send _ _ s => s
  | Edit _ _ _ s => s
  | _ => None
  end.

(** The timestamps of the deliveries of a run, in order. *)
Fixpoint stamps (cs : list Call) : list Z :=
  match cs with
  | [] => []
  | c :: rest =>
      match stampOf c with
      | Some t => t :: stamps rest
      | None => stamps rest
      end
  end.

(** Each element is more than [d] after the one before. *)
Fixpoint spaced (d : Z) (l : list Z) : Prop :=
  match l with
  | t1 :: rest =>
      match rest with
      | t2 :: _ => (d < t2 - t1)%Z /\ spaced d rest
      | [] => True
      end
  | [] => True
  end.

(** A delivery made by the scan loop that went through carries a stamp. *)
Definition stampedDelivery (c : Call) : Prop :=
  match c with
  | Send _ (Some _) None => False
  | Edit _ _ _ None => False
  | _ => True
  end.

(** What the loop maintains about the stamps of its deliveries. *)
Definition wellSpaced (v : Vars) : Prop :=
  spaced updateInterval (stamps (calls v))
  /\ Forall stampedDelivery (calls v).

Definition throttled (v : Vars) : Prop :=
  wellSpaced v
  /\ if firstChunk v then stamps (calls v) = []
     else exists l, stamps (calls v) = (l ++ [lastUpdate v])%list.

Definition monotone (clk : nat -> Z) : Prop :=
  forall i j, (i <= j)%nat -> (clk i <= clk j)%Z.

(** A call without the outcome of an edit. *)
Definition forget (c : Call) : Call :=
  match c with
  | Edit m text _ s => Edit m text true s
  | _ => c
  end.

(** The same collaborators with other edit outcomes. *)
Definition withEdits (f : nat -> string -> bool) (E : Env) : Env :=
  {| clock := clock E; sendResult := sendResult E; editResult := f;
     replyResult := replyResult E; saveResult := saveResult E;
     doResult := doResult E |}.

Definition isSend (c : Call) : bool :=
  match c with Send _ _ _ => true | _ => false end.

(** The number of messages created so far. *)
Definition sends (v : Vars) : nat := List.length (filter isSend (calls v)).

Definition isFailedEdit (c : Call) : bool :=
  match c with Edit _ _ false _ => true | _ => false end.

Definition isEditError (m : LogMsg) : bool :=
  match m with
  | LogUpdateError | LogFinalError | LogErrorMessageError true => true
  | _ => false
  end.

Definition failedEdits (v : Vars) : nat :=
  List.length (filter isFailedEdit (calls v)).

Definition editErrors (v : Vars) : nat :=
  List.length (filter isEditError (logs v)).

(** Edit errors logged minus edits that failed. *)
Definition balance (v : Vars) : Z :=
  Z.of_nat (editErrors v) - Z.of_nat (failedEdits v).

(** Two states of the loop that differ by the outcomes of the edits made
    and by the log at most. *)
Definition sameButEdits (v1 v2 : Vars) : Prop :=
  fullResponse v1 = fullResponse v2
  /\ msg v1 = msg v2
  /\ lastUpdate v1 = lastUpdate v2
  /\ firstChunk v1 = firstChunk v2
  /\ reads v1 = reads v2
  /\ edits v1 = edits v2
  /\ map forget (calls v1) = map forget (calls v2).

Definition sameFlow (f1 f2 : Flow) : Prop :=
  match f1, f2 with
  | Next v1, Next v2 => sameButEdits v1 v2
  | Return v1 e1, Return v2 e2 => e1 = e2 /\ sameButEdits v1 v2
  | _, _ => False
  end.

(** The history of a user as the store would return it: the messages of
    the first record of the user. *)
Definition history (telegramID : Z) (R : Mokky) : list Message :=
  match query telegramID R with
  | u :: _ => Messages u
  | [] => []
  end.

(** ** Concrete streams and collaborators *)

Module Sample.

(** The line of a data event carrying one candidate with one part. *)
Definition event (text : string) : string :=
  "data: " ++ Json.write_GeminiResponse
    {| Candidates := [{| CandidateParts := [{| Text := text |}] |}] |}.

(** A syntactically broken data line. *)
Definition broken : string := "data: {oops".

Definition sentinel : string := "data: [DONE]".

Definition ms (n : Z) : Z := n * 1000000.

(** Clock readings given as a list (the last one repeats), and fixed
    outcomes for the bot. *)
Definition env (readings : list Z) (sendOk editOk : bool) : Env :=
  {| clock := fun k => nth k readings (last readings 0%Z);
     sendResult := fun _ => if sendOk then Some 7%Z else None;
     editResult := fun _ _ => editOk;
     replyResult := fun _ => true;
     saveResult := true;
     doResult := fun _ => None |}.

(** A clock that advances by [step] from one reading to the next. *)
Definition steady (step : Z) (sendOk editOk : bool) : Env :=
  {| clock := fun k => (Z.of_nat k * step)%Z;
     sendResult := fun _ => if sendOk then Some 7%Z else None;
     editResult := fun _ _ => editOk;
     replyResult := fun _ => true;
     saveResult := true;
     doResult := fun _ => None |}.

Definition response (ls : list string) (dropped : bool) : Response :=
  {| StatusCode := 200; lines := ls; readError := dropped |}.

Definition turn (k : nat) : Message :=
  {| MessageRole := if Nat.even k then "user" else "model";
     MessageText := "m" |}.

(** A store holding one record, of user 42, with [n] messages. *)
Definition store (n : nat) : Mokky :=
  {| urlSet := true; up := fun _ => true; trips := O;
     users := [{| ID := 1; TelegramID := 42; Username := "ann";
                  Messages := map turn (seq 0 n) |}] |}.

End Sample.

(** ** Further observations on a run *)

(** An edit is made on a message that exists. *)
Definition editHasMessage (c : Call) : Prop :=
  match c with
  | Edit None _ _ _ => False
  | _ => True
  end.

(** The text a call shows to the user. *)
Definition textOf (c : Call) : option string :=
  match c with
  | Send t _ _ => Some t
  | Edit _ t _ _ => Some t
  | _ => None
  end.

(** The text of the call, if it has one, starts the string [full]. *)
Definition showsPrefixOf (full : string) (c : Call) : Prop :=
  match textOf c with
  | Some t => exists rest, full = t ++ rest
  | None => True
  end.

Definition isSaveMessage (c : Call) : bool :=
  match c with SaveMessage _ _ _ _ => true | _ => false end.

(** What every state of a run satisfies: edits go to a message, the texts
    shown start the accumulated text, nothing is saved during the loop. *)
Definition sound (v : Vars) : Prop :=
  Forall editHasMessage (calls v)
  /\ Forall (showsPrefixOf (fullResponse v)) (calls v)
  /\ filter isSaveMessage (calls v) = [].

(** What the loop maintains between its variables and its calls. *)
Definition coherent (v : Vars) : Prop :=
  sound v
  /\ (firstChunk v = true -> fullResponse v = "")
  /\ (firstChunk v = false -> msg v <> None).

(** The message created so far: the result of the last send that went
    through among the calls [cs], or [created] if there is none. *)
Definition createdBy (created : option TeleMessage) (cs : list Call)
  : option TeleMessage :=
  fold_left (fun acc c =>
               match c with
               | Send _ (Some m) _ => Some m
               | _ => acc
               end) cs created.

(** Every edit among the calls is made on the message that a send made
    before it has created. *)
Fixpoint editsFollow (created : option TeleMessage) (cs : list Call) : Prop :=
  match cs with
  | [] => True
  | c :: rest =>
      match c with
      | Edit m _ _ _ => created <> None /\ m = created
      | _ => True
      end
      /\ editsFollow (createdBy created [c]) rest
  end.

(** The calls of a state are well formed in that sense, and [msg] is the
    message created. *)
Definition anchored (v : Vars) : Prop :=
  editsFollow None (calls v) /\ createdBy None (calls v) = msg v.

(** All the bytes of [ws] are in [cutset]. *)
Fixpoint allIn (cutset ws : string) : bool :=
  match ws with
  | EmptyString => true
  | String c r => Strings.mem c cutset && allIn cutset r
  end.

(** ** The [/history] command and [saveMessage] *)

Definition clearedText : string := "Your messsage history has been cleared!".
Definition deleteFailedText : string := "Error deleting user history".

(** What a run of the [/history] handler leaves: the store, the reply, the
    error it logged if any, and the error it returns. *)
Record Cleared := {
  store : Mokky;
  said : Call;
  logged : option error;
  returned : option error
}.

(** The [/history] handler, for the sender [telegramID]. *)
Definition OnHistory (E : Env) (telegramID : Z) (R : Mokky) : Cleared :=
  match deleteUserHistory telegramID R with
  | (R', Some e) =>
      let ok := replyResult E deleteFailedText in
      {| store := R'; said := Reply deleteFailedText ok; logged := Some e;
         returned := if ok then None else Some SendError |}
  | (R', None) =>
      let ok := replyResult E clearedText in
      {| store := R'; said := Reply clearedText ok; logged := None;
         returned := if ok then None else Some SendError |}
  end.

(** The fields of [tele.User] that [saveMessage] reads. *)
Record User := {
  UserID : Z;
  UserUsername : string;
  FirstName : string
}.

(** [fmt.Sprint] of an [int64]. *)
Definition Sprint (n : Z) : string := NilZero.string_of_int (Z.to_int n).

(** The [username] that [saveMessage] stores. *)
Definition usernameOf (sender : User) : string :=
  if negb (String.eqb (UserUsername sender) "") then UserUsername sender
  else if negb (String.eqb (FirstName sender) "") then FirstName sender
  else "no username " ++ Sprint (UserID sender).

(** The write that [saveMessage] sends to the store: [PATCH users/<id>] or
    [POST users], with the marshalled [UserMessages] as body. *)
Inductive Request :=
| PATCH (id : Z) (body : UserMessages)
| POST (body : UserMessages).

Definition bodyOf (r : Request) : UserMessages :=
  match r with
  | PATCH _ b => b
  | POST b => b
  end.

Definition newTurns (userMsg aiMsg : string) : list Message :=
  [{| MessageRole := "user"; MessageText := userMsg |};
   {| MessageRole := "model"; MessageText := aiMsg |}].

(** [saveMessage]: the round trips made, the write request issued if the
    function got that far, and the error returned.  The [ID] of the body is
    left at its zero value by the code. *)
Definition saveMessage (telegramID : Z) (userMsg aiMsg : string)
  (sender : User) (R : Mokky) : Mokky * option Request * option error :=
  if negb (urlSet R) then (R, None, Some UrlNotSet)
  else
    let username := usernameOf sender in
    if negb (up R (trips R)) then (trip R, None, Some HttpError)
    else
      let req :=
        match query telegramID R with
        | u :: _ =>
            PATCH (ID u)
              {| ID := 0; TelegramID := telegramID; Username := username;
                 Messages := Messages u ++ newTurns userMsg aiMsg |}
        | [] =>
            POST {| ID := 0; TelegramID := telegramID; Username := username;
                    Messages := newTurns userMsg aiMsg |}
        end in
      let R := trip R in
      if negb (up R (trips R)) then (trip R, Some req, Some HttpError)
      else (trip R, Some req, None).

(** A record with its messages removed. *)
Definition blank (r : UserMessages) : UserMessages :=
  {| ID := ID r; TelegramID := TelegramID r; Username := Username r;
     Messages := [] |}.

(** A store shared by two users, 42 and 43. *)
Definition sharedStore : Mokky :=
  {| urlSet := true; up := fun _ => true; trips := O;
     users := [{| ID := 1; TelegramID := 42; Username := "ann";
                  Messages := map Sample.turn (seq 0 3) |};
               {| ID := 2; TelegramID := 43; Username := "bob";
                  Messages := map Sample.turn (seq 0 2) |}] |}.

(** ** The environment file ([loadEnvFile])

    [strings.TrimSpace] removes the white-space runes at both ends.  On the
    bytes of a string these are the six ASCII ones and the UTF-8 encodings
    of U+0085, U+00A0 (two bytes) and of U+1680, U+2000 to U+200A, U+2028,
    U+2029, U+202F, U+205F, U+3000 (three bytes); a byte that does not
    start or end such an encoding stops the trimming. *)

Definition isAsciiSpace (c : ascii) : bool :=
  let n := nat_of_ascii c in
  ((9 <=? n)%nat && (n <=? 13)%nat) || (n =? 32)%nat.

Definition isSpace2 (a b : ascii) : bool :=
  (nat_of_ascii a =? 194)%nat
  && ((nat_of_ascii b =? 133)%nat || (nat_of_ascii b =? 160)%nat).

Definition isSpace3 (a b c : ascii) : bool :=
  let x := nat_of_ascii a in
  let y := nat_of_ascii b in
  let z := nat_of_ascii c in
  ((x =? 225) && (y =? 154) && (z =? 128))%nat
  || ((x =? 226) && (y =? 128)
      && (((128 <=? z) && (z <=? 138)) || (z =? 168) || (z =? 169)
          || (z =? 175)))%nat
  || ((x =? 226) && (y =? 129) && (z =? 159))%nat
  || ((x =? 227) && (y =? 128) && (z =? 128))%nat.

(** The bytes after the leading white space. *)
Fixpoint trimLeftSpace (l : list ascii) : list ascii :=
  match l with
  | [] => []
  | a :: r =>
      if isAsciiSpace a then trimLeftSpace r
      else
        match r with
        | b :: r2 =>
            if isSpace2 a b then trimLeftSpace r2
            else
              match r2 with
              | c :: r3 => if isSpace3 a b c then trimLeftSpace r3 else l
              | [] => l
              end
        | [] => l
        end
  end.

(** The same on the reversed bytes, for the trailing white space: the last
    byte of an encoding comes first. *)
Fixpoint trimLeftSpaceRev (l : list ascii) : list ascii :=
  match l with
  | [] => []
  | c :: r =>
      if isAsciiSpace c then trimLeftSpaceRev r
      else
        match r with
        | b :: r2 =>
            if isSpace2 b c then trimLeftSpaceRev r2
            else
              match r2 with
              | a :: r3 => if isSpace3 a b c then trimLeftSpaceRev r3 else l
              | [] => l
              end
        | [] => l
        end
  end.

Definition trimSpace (l : list ascii) : list ascii :=
  rev (trimLeftSpaceRev (rev (trimLeftSpace l))).

(** [strings.TrimSpace]. *)
Definition TrimSpace (s : string) : string :=
  string_of_list_ascii (trimSpace (list_ascii_of_string s)).

(** [strings.SplitN(s, "=", 2)] when it has two parts: the text before the
    first [=] and the text after it. *)
Fixpoint cut (s : string) : option (string * string) :=
  match s with
  | EmptyString => None
  | String c r =>
      if Ascii.eqb c "="%char then Some (EmptyString, r)
      else match cut r with
           | Some (a, b) => Some (String c a, b)
           | None => None
           end
  end.

(** What a line of the file sets, if anything. *)
Definition envLine (text : string) : option (string * string) :=
  let line := TrimSpace text in
  if (String.length line =? 0)%nat || Strings.HasPrefix line "#" then None
  else
    match cut line with
    | Some (a, b) => Some (TrimSpace a, TrimSpace b)
    | None => None
    end.

(** The environment of the process, most recent setting first. *)
Definition Environ := list (string * string).

(** [os.Setenv], which refuses (with an error that the loader ignores) an
    empty name, a name with [=] or NUL, and a value with NUL. *)
Definition Setenv (key value : string) (env : Environ) : Environ :=
  if (String.length key =? 0)%nat || Strings.mem "="%char key
     || Strings.mem "000"%char key || Strings.mem "000"%char value
  then env
  else (key, value) :: env.

(** [os.Getenv]: the empty string for a name that is not set. *)
Fixpoint Getenv (key : string) (env : Environ) : string :=
  match env with
  | [] => ""
  | (k, v) :: rest => if String.eqb k key then v else Getenv key rest
  end.

(** [loadEnvFile], on the lines the scanner yields; [None] is a file that
    cannot be opened. *)
Definition loadEnvFile (file : option (list string)) (env : Environ)
  : Environ :=
  match file with
  | None => env
  | Some ls =>
      fold_left (fun env text =>
                   match envLine text with
                   | Some (key, value) => Setenv key value env
                   | None => env
                   end) ls env
  end.

(** An ASCII byte that is not white space. *)
Definition plain (c : ascii) : bool :=
  (nat_of_ascii c <? 128)%nat && negb (isAsciiSpace c).

(** A non-empty text whose first and last bytes are plain. *)
Definition tight (s : string) : bool :=
  match list_ascii_of_string s with
  | [] => false
  | c :: r => plain c && plain (last r c)
  end.

(** ASCII white space only. *)
Fixpoint blanks (s : string) : bool :=
  match s with
  | EmptyString => true
  | String c r => isAsciiSpace c && blanks r
  end.

(** A line the loader skips: blank, a comment, or without [=]. *)
Inductive skipped : string -> Prop :=
| skipped_blank (pad : string) :
    blanks pad = true -> skipped pad
| skipped_comment (pad rest : string) :
    blanks pad = true -> skipped (pad ++ "#" ++ rest)
| skipped_no_equals (text : string) :
    Strings.mem "="%char text = false -> skipped text.

(** ** The voice handler, from the scanner on

    The [tele.OnVoice] handler runs the same scan loop on the answer to the
    transcription.  Its code after the loop saves the transcription as the
    user's text, and answers an empty stream by a new message in every
    case, whose error it returns. *)

Definition voiceSorryText : string :=
  "Sorry, I couldn't process your voice message".

Definition finishVoice (E : Env) (telegramID : Z) (transcription : string)
  (statusCode : Z) (v : Vars) : Vars * option error :=
  if (0 <? String.length (fullResponse v))%nat then
    let finalText := fullResponse v ++ marker in
    let ok := editResult E (edits v) finalText in
    let v := logIf (negb ok) LogFinalError
               (call (Edit (msg v) finalText ok None) (edited v)) in
    let saved := saveResult E in
    let v := logIf (negb saved) LogSaveError
               (call (SaveMessage telegramID transcription (fullResponse v)
                                  saved) v) in
    (v, None)
  else if negb (statusCode =? 200)%Z then
    let v := log (LogStatus statusCode) v in
    let ok := replyResult E errorText in
    (call (Reply errorText ok) v, if ok then None else Some SendError)
  else
    let ok := replyResult E voiceSorryText in
    (call (Reply voiceSorryText ok) v, if ok then None else Some SendError).

Definition aggregateVoice (U : string -> option GeminiResponse) (E : Env)
  (telegramID : Z) (transcription : string) (resp : Response) (v : Vars)
  : Vars * option error :=
  match scan U E (lines resp) v with
  | Return v' err => (v', err)
  | Next v' => finishVoice E telegramID transcription (StatusCode resp) v'
  end.

(** ** Basic facts *)

Lemma append_assoc (a b c : string) : (a ++ b) ++ c = a ++ (b ++ c).
Proof. induction a as [|x a IH]; cbn; [reflexivity | now rewrite IH]. Qed.

Lemma append_empty_r (a : string) : a ++ "" = a.
Proof. induction a as [|x a IH]; cbn; [reflexivity | now rewrite IH]. Qed.

Lemma length_append (a b : string) :
  String.length (a ++ b) = (String.length a + String.length b)%nat.
Proof. induction a as [|x a IH]; cbn; [reflexivity | now rewrite IH]. Qed.

Lemma length_positive (a : string) :
  (0 <? String.length a)%nat = true <-> a <> "".
Proof.
  destruct a; cbn; split; intro H; try reflexivity; try discriminate.
  now contradiction H.
Qed.

(** Logging touches the log only. *)
Lemma logAll_vars (ms : list LogMsg) (v : Vars) :
  fullResponse (logAll ms v) = fullResponse v
  /\ msg (logAll ms v) = msg v
  /\ lastUpdate (logAll ms v) = lastUpdate v
  /\ firstChunk (logAll ms v) = firstChunk v
  /\ reads (logAll ms v) = reads v
  /\ edits (logAll ms v) = edits v
  /\ calls (logAll ms v) = calls v
  /\ logs (logAll ms v) = (logs v ++ ms)%list.
Proof.
  revert v. induction ms as [|m ms IH]; intro v; cbn.
  - now rewrite app_nil_r.
  - destruct (IH (log m v)) as (A & B & C & D & F & G & H & I).
    fold (logAll ms (log m v)).
    rewrite A, B, C, D, F, G, H, I. cbn. now rewrite <- app_assoc.
Qed.

Section Facts.

Variable U : string -> option GeminiResponse.
Variable E : Env.

(** The three results of the decoder. *)
Lemma parse_cases (line : string) :
  parseSSEResponse U line = ([], (None, None))
  \/ (exists data, parseSSEResponse U line
                   = ([LogRawData data], (None, Some UnmarshalError)))
  \/ (exists resp, parseSSEResponse U line = ([], (Some resp, None))).
Proof.
  unfold parseSSEResponse.
  destruct (negb _); [now left|].
  destruct (String.eqb _ _); [now left|].
  destruct (U _) as [resp|]; [right; right; now exists resp|].
  right; left; eexists; reflexivity.
Qed.

(** A line without fragment is skipped: only the log grows, and not by
    an error of the bot. *)
Lemma body_skip (line : string) (v : Vars) :
  fragment U line = None ->
  exists printed,
    body U E line v = Next (logAll printed (log (LogRawLine line) v))
    /\ filter isEditError printed = [].
Proof.
  unfold fragment, body. intros H.
  destruct (String.eqb line "") eqn:He.
  - exists []. split; reflexivity.
  - destruct (parse_cases line) as [P|[[data P]|[resp P]]];
      rewrite P in *; cbn in *.
    + exists []. split; reflexivity.
    + exists [LogRawData data; LogParseError]. split; reflexivity.
    + rewrite H. exists []. split; reflexivity.
Qed.

(** A line with a fragment goes through the delivery code. *)
Lemma body_chunk (line chunk : string) (v : Vars) :
  fragment U line = Some chunk ->
  body U E line v
  = deliver E chunk (log (LogChunk chunk) (log (LogRawLine line) v)).
Proof.
  unfold fragment, body. intros H.
  destruct (String.eqb line "") eqn:He.
  - apply String.eqb_eq in He. subst. cbn in H. discriminate.
  - destruct (parse_cases line) as [P|[[data P]|[resp P]]];
      rewrite P in *; cbn in *; try discriminate.
    rewrite H. reflexivity.
Qed.

(** The delivery code appends the chunk, whatever it decides. *)
Lemma deliver_fullResponse (chunk : string) (v : Vars) :
  fullResponse (varsOf (deliver E chunk v)) = fullResponse v ++ chunk.
Proof.
  unfold deliver. cbn.
  destruct (firstChunk v).
  - destruct (sendResult E chunk); reflexivity.
  - destruct (_ <? _)%Z; [|reflexivity].
    cbn. destruct (editResult E _ _); reflexivity.
Qed.

Lemma body_fullResponse (line : string) (v : Vars) :
  fullResponse (varsOf (body U E line v))
  = fullResponse v ++ cat (fragments U [line]).
Proof.
  cbn. destruct (fragment U line) as [chunk|] eqn:F.
  - rewrite (body_chunk _ _ _ F), deliver_fullResponse. cbn.
    now rewrite append_empty_r.
  - destruct (body_skip line v F) as (printed & -> & _). cbn.
    destruct (logAll_vars printed (log (LogRawLine line) v)) as (-> & _).
    cbn. now rewrite append_empty_r.
Qed.

(** The builder after the loop, when the loop ran to its end. *)
Lemma scan_fullResponse (ls : list string) :
  forall v v', scan U E ls v = Next v' ->
               fullResponse v' = fullResponse v ++ cat (fragments U ls).
Proof.
  induction ls as [|line rest IH]; intros v v' H; cbn in H.
  - injection H as <-. cbn. now rewrite append_empty_r.
  - destruct (body U E line v) as [v1|v1 e] eqn:B; [|discriminate].
    rewrite (IH _ _ H).
    pose proof (body_fullResponse line v) as F. rewrite B in F. cbn in F.
    rewrite F. cbn. destruct (fragment U line); cbn.
    + now rewrite append_empty_r, !append_assoc.
    + now rewrite append_empty_r.
Qed.

End Facts.

(** The code after the loop leaves the builder as it is. *)
Lemma finish_fullResponse (E : Env) (telegramID : Z) (userMsg : string)
  (statusCode : Z) (v : Vars) :
  fullResponse (fst (finish E telegramID userMsg statusCode v)) = fullResponse v.
Proof.
  unfold finish.
  destruct (0 <? _)%nat.
  - cbn. destruct (editResult E _ _), (saveResult E); reflexivity.
  - destruct (negb _).
    + cbn. destruct (msg v); cbn.
      * destruct (editResult E _ _); reflexivity.
      * destruct (replyResult E _); reflexivity.
    + destruct (msg v); reflexivity.
Qed.

(** With a non-empty builder, the code after the loop makes the final edit
    and then saves, and returns nil. *)
Lemma finish_nonempty (E : Env) (telegramID : Z) (userMsg : string)
  (statusCode : Z) (v : Vars) :
  fullResponse v <> "" ->
  calls (fst (finish E telegramID userMsg statusCode v))
  = (calls v
       ++ [Edit (msg v) (fullResponse v ++ marker)
                (editResult E (edits v) (fullResponse v ++ marker)) None;
           SaveMessage telegramID userMsg (fullResponse v) (saveResult E)])%list
  /\ snd (finish E telegramID userMsg statusCode v) = None.
Proof.
  intro H. apply length_positive in H. unfold finish. rewrite H. cbn.
  destruct (editResult E _ _), (saveResult E); cbn;
    now rewrite <- app_assoc.
Qed.

Lemma marker_changes (s : string) : s ++ marker <> s.
Proof.
  intro H. apply (f_equal String.length) in H.
  rewrite length_append in H. cbn in H. lia.
Qed.

(** ** The accumulated text *)

(** C1. For every stream of lines and every behaviour of the collaborators
    (clock readings, outcomes of the edits), when the scan loop runs to its
    end the accumulated text, at the end of the loop and after the
    finalization, is the concatenation in arrival order of the fragments of
    the lines: the text of the first part of the first candidate of each
    line that decodes to a response. *)
Theorem accumulated_is_concatenation :
  forall (U : string -> option GeminiResponse) (E : Env) (telegramID : Z)
         (userMsg : string) (resp : Response) (cs : list Call)
         (lg : list LogMsg) (v : Vars),
    scan U E (lines resp) (start cs lg) = Next v ->
    fullResponse v = cat (fragments U (lines resp))
    /\ fullResponse
         (fst (aggregate U E telegramID userMsg resp (start cs lg)))
       = cat (fragments U (lines resp)).
Proof.
  intros U E telegramID userMsg resp cs lg v H.
  pose proof (scan_fullResponse U E _ _ _ H) as F. cbn in F.
  split; [exact F|].
  unfold aggregate. rewrite H. now rewrite finish_fullResponse.
Qed.

Lemma accumulated_is_concatenation_witness :
  let resp :=
    Sample.response [Sample.event "Hel"; ""; Sample.event "lo ";
                     Sample.event "world"; Sample.sentinel] false in
  let E := Sample.env [0; Sample.ms 100; Sample.ms 700; Sample.ms 701]%Z
                      true true in
  fullResponse (fst (aggregate Json.Unmarshal E 42 "hi" resp (start [] [])))
  = cat (fragments Json.Unmarshal (lines resp)).
Proof.
  cbv zeta.
  refine (proj2 (accumulated_is_concatenation Json.Unmarshal _ 42 "hi" _ [] []
                   _ _)).
  vm_compute. reflexivity.
Defined.

(** C10. When the loop runs to its end with a non-empty accumulated text,
    the handler makes exactly two more calls: the final edit, whose text is
    the accumulated text followed by the marker U+200B, and [saveMessage],
    whose model text is the accumulated text itself, which differs from the
    text of the final edit: the marker is not part of what is saved. *)
Theorem saved_text_is_unmarked :
  forall (U : string -> option GeminiResponse) (E : Env) (telegramID : Z)
         (userMsg : string) (resp : Response) (cs : list Call)
         (lg : list LogMsg) (v : Vars),
    scan U E (lines resp) (start cs lg) = Next v ->
    fullResponse v <> "" ->
    let acc := cat (fragments U (lines resp)) in
    exists ok saved,
      calls (fst (aggregate U E telegramID userMsg resp (start cs lg)))
      = (calls v ++ [Edit (msg v) (acc ++ marker) ok None;
                     SaveMessage telegramID userMsg acc saved])%list
      /\ acc ++ marker <> acc.
Proof.
  intros U E telegramID userMsg resp cs lg v H Hne acc.
  pose proof (scan_fullResponse U E _ _ _ H) as F. cbn in F.
  subst acc. rewrite <- F.
  exists (editResult E (edits v) (fullResponse v ++ marker)), (saveResult E).
  split; [|apply marker_changes].
  unfold aggregate. rewrite H.
  exact (proj1 (finish_nonempty E telegramID userMsg (StatusCode resp) v Hne)).
Qed.

Lemma saved_text_is_unmarked_witness :
  let resp :=
    Sample.response [Sample.event "Hel"; Sample.event "lo"] false in
  let E := Sample.env [0; Sample.ms 100]%Z true true in
  exists ok saved,
    calls (fst (aggregate Json.Unmarshal E 42 "hi" resp (start [] [])))
    = [Send "Hel" (Some 7%Z) (Some 0%Z);
       Edit (Some 7%Z) (cat (fragments Json.Unmarshal (lines resp)) ++ marker)
            ok None;
       SaveMessage 42 "hi" (cat (fragments Json.Unmarshal (lines resp))) saved]
    /\ cat (fragments Json.Unmarshal (lines resp)) ++ marker
       <> cat (fragments Json.Unmarshal (lines resp)).
Proof.
  cbv zeta.
  refine (saved_text_is_unmarked Json.Unmarshal _ 42 "hi"
            (Sample.response [Sample.event "Hel"; Sample.event "lo"] false)
            [] []
            {| fullResponse := "Hello"; msg := Some 7%Z; lastUpdate := 0%Z;
               firstChunk := false; reads := 2; edits := 0;
               calls := [Send "Hel" (Some 7%Z) (Some 0%Z)];
               logs := [LogRawLine (Sample.event "Hel"); LogChunk "Hel";
                        LogRawLine (Sample.event "lo"); LogChunk "lo"] |}
            _ _).
  - vm_compute. reflexivity.
  - discriminate.
Defined.

(** ** A read error during the stream *)

(** C2, as stated, fails: the stream below delivers one fragment and then
    the read fails; the handler makes the final edit with the accumulated
    text and calls [saveMessage] with it. *)
Lemma dropped_stream_is_saved :
  let resp := Sample.response [Sample.event "Hel"] true in
  readError resp = true
  /\ calls (fst (aggregate Json.Unmarshal (Sample.env [0%Z] true true)
                   42 "hi" resp (start [] [])))
     = [Send "Hel" (Some 7%Z) (Some 0%Z);
        Edit (Some 7%Z) ("Hel" ++ marker) true None;
        SaveMessage 42 "hi" "Hel" true].
Proof. vm_compute. split; reflexivity. Qed.

(** C2, amended. A run whose transport read fails mid-stream proceeds
    exactly as a run whose stream ends cleanly after the same lines: the
    handler does not look at how the scanner stopped.  In particular, when
    the loop ran to its end and the accumulated text is non-empty, the text
    is delivered by the final edit (with the marker) and handed to
    [saveMessage]. *)
Theorem read_error_is_end_of_stream :
  forall (U : string -> option GeminiResponse) (E : Env) (telegramID : Z)
         (userMsg : string) (statusCode : Z) (ls : list string) (v0 : Vars),
    let dropped :=
      {| StatusCode := statusCode; lines := ls; readError := true |} in
    let clean :=
      {| StatusCode := statusCode; lines := ls; readError := false |} in
    aggregate U E telegramID userMsg dropped v0
    = aggregate U E telegramID userMsg clean v0
    /\ forall v, scan U E ls v0 = Next v -> fullResponse v <> "" ->
         calls (fst (aggregate U E telegramID userMsg dropped v0))
         = (calls v
              ++ [Edit (msg v) (fullResponse v ++ marker)
                       (editResult E (edits v) (fullResponse v ++ marker)) None;
                  SaveMessage telegramID userMsg (fullResponse v)
                              (saveResult E)])%list.
Proof.
  intros U E telegramID userMsg statusCode ls v0 dropped clean.
  split; [reflexivity|].
  intros v H Hne. unfold aggregate, dropped. cbn [lines StatusCode].
  rewrite H.
  exact (proj1 (finish_nonempty E telegramID userMsg statusCode v Hne)).
Qed.

Lemma read_error_is_end_of_stream_witness :
  let E := Sample.env [0; Sample.ms 100]%Z true true in
  let ls := [Sample.event "Hel"; Sample.event "lo"] in
  calls (fst (aggregate Json.Unmarshal E 42 "hi" (Sample.response ls true)
                (start [] [])))
  = [Send "Hel" (Some 7%Z) (Some 0%Z);
     Edit (Some 7%Z) ("Hello" ++ marker) true None;
     SaveMessage 42 "hi" "Hello" true].
Proof.
  cbv zeta.
  refine (proj2 (read_error_is_end_of_stream Json.Unmarshal
                   (Sample.env [0; Sample.ms 100]%Z true true) 42 "hi" 200
                   [Sample.event "Hel"; Sample.event "lo"] (start [] []))
            {| fullResponse := "Hello"; msg := Some 7%Z; lastUpdate := 0%Z;
               firstChunk := false; reads := 2; edits := 0;
               calls := [Send "Hel" (Some 7%Z) (Some 0%Z)];
               logs := [LogRawLine (Sample.event "Hel"); LogChunk "Hel";
                        LogRawLine (Sample.event "lo"); LogChunk "lo"] |}
            _ _).
  - vm_compute. reflexivity.
  - discriminate.
Defined.

(** ** The sentinel *)

(** C3, as stated, fails: the decoder gives the sentinel line the result it
    gives a blank line, and the loop reads on: the fragment of the line
    after the sentinel is accumulated and sent. *)
Lemma sentinel_does_not_end_the_loop :
  parseSSEResponse Json.Unmarshal Sample.sentinel
  = parseSSEResponse Json.Unmarshal ""
  /\ (let v := varsOf (scan Json.Unmarshal (Sample.env [0%Z] true true)
                         [Sample.sentinel; Sample.event "late"] (start [] []))
      in fullResponse v = "late"
         /\ calls v = [Send "late" (Some 7%Z) (Some 0%Z)]).
Proof. vm_compute. repeat split; reflexivity. Qed.

(** C3, amended. The line whose payload after the prefix is the sentinel
    [[DONE]] decodes to the nil response with no error, which is the result
    of a line that is not an event, and nothing is logged by the decoder;
    the loop skips it, changing nothing but the log of raw lines, and goes
    on with the lines that follow. *)
Theorem sentinel_is_skipped :
  forall (U : string -> option GeminiResponse) (E : Env)
         (rest : list string) (v : Vars),
    parseSSEResponse U "data: [DONE]" = ([], (None, None))
    /\ parseSSEResponse U "data: [DONE]" = parseSSEResponse U ""
    /\ scan U E ("data: [DONE]" :: rest) v
       = scan U E rest (log (LogRawLine "data: [DONE]") v).
Proof. intros U E rest v. repeat split; reflexivity. Qed.

(** ** Decoding a line *)

Lemma HasPrefix_data (payload : string) :
  Strings.HasPrefix ("data: " ++ payload) "data: " = true.
Proof. unfold Strings.HasPrefix. cbn. now destruct payload. Qed.

Lemma TrimPrefix_data (payload : string) :
  Strings.TrimPrefix ("data: " ++ payload) "data: " = payload.
Proof. unfold Strings.TrimPrefix. now rewrite HasPrefix_data. Qed.

(** C8. Decoding is a total function with three results.  A line that
    does not start with the prefix [data: ] (the empty line included) yields
    the nil response with no error, never an error, and the loop skips it:
    the state after the line is the state before it with the raw line
    logged, as for every line read.  A line with the prefix whose payload,
    once left-trimmed, is rejected by the structural decoder yields an error
    value, the decoder logging the payload it was given; the loop logs the
    error and goes on with the next line. *)
Theorem decoding_is_total_and_non_fatal :
  forall (U : string -> option GeminiResponse) (E : Env) (line : string)
         (rest : list string) (v : Vars),
    (Strings.HasPrefix line "data: " = false ->
     parseSSEResponse U line = ([], (None, None))
     /\ scan U E (line :: rest) v = scan U E rest (log (LogRawLine line) v))
    /\ (forall payload,
           line = "data: " ++ payload ->
           payload <> "[DONE]" ->
           U (Strings.TrimLeft payload cutset) = None ->
           let data := Strings.TrimLeft payload cutset in
           parseSSEResponse U line
           = ([LogRawData data], (None, Some UnmarshalError))
           /\ scan U E (line :: rest) v
              = scan U E rest
                  (log LogParseError
                     (log (LogRawData data) (log (LogRawLine line) v)))).
Proof.
  intros U E line rest v. split.
  - intro H.
    assert (P : parseSSEResponse U line = ([], (None, None))).
    { unfold parseSSEResponse. now rewrite H. }
    split; [exact P|].
    cbn [scan]. unfold body. rewrite P.
    destruct (String.eqb line ""); reflexivity.
  - intros payload -> Hd Hu data.
    assert (P : parseSSEResponse U ("data: " ++ payload)
                = ([LogRawData data], (None, Some UnmarshalError))).
    { unfold parseSSEResponse.
      rewrite TrimPrefix_data, HasPrefix_data.
      apply String.eqb_neq in Hd. cbn [negb]. rewrite Hd.
      fold data in Hu. subst data. now rewrite Hu. }
    split; [exact P|].
    cbn [scan]. unfold body. rewrite P. reflexivity.
Qed.

Lemma decoding_is_total_and_non_fatal_witness :
  parseSSEResponse Json.Unmarshal "event: ping" = ([], (None, None))
  /\ parseSSEResponse Json.Unmarshal ""  = ([], (None, None))
  /\ parseSSEResponse Json.Unmarshal Sample.broken
     = ([LogRawData "{oops"], (None, Some UnmarshalError)).
Proof.
  pose (E := Sample.env [0%Z] true true).
  split; [|split].
  - refine (proj1 (proj1 (decoding_is_total_and_non_fatal Json.Unmarshal E
                            "event: ping" [] (start [] [])) _)).
    reflexivity.
  - refine (proj1 (proj1 (decoding_is_total_and_non_fatal Json.Unmarshal E
                            "" [] (start [] [])) _)).
    reflexivity.
  - refine (proj1 (proj2 (decoding_is_total_and_non_fatal Json.Unmarshal E
                            Sample.broken [] (start [] [])) "{oops" _ _ _)).
    + reflexivity.
    + discriminate.
    + vm_compute. reflexivity.
Defined.

(** ** The throttle *)

(** Saturation does not change the comparison with the interval. *)
Lemma Sub_interval (t u : Z) :
  (updateInterval <? Sub t u)%Z = (updateInterval <? t - u)%Z.
Proof.
  unfold Sub, updateInterval, minDuration, maxDuration.
  destruct (Z.ltb_spec (500 * 1000000) (t - u));
    destruct (Z.ltb_spec (500 * 1000000)
                (Z.max (- 2 ^ 63) (Z.min (2 ^ 63 - 1) (t - u))));
    try reflexivity; exfalso; lia.
Qed.

(** The first chunk: one send of the chunk; on success the message is kept,
    [firstChunk] is cleared and the clock is read. *)
Lemma deliver_first (E : Env) (chunk : string) (v : Vars) :
  firstChunk v = true ->
  match sendResult E chunk with
  | Some m =>
      exists v', deliver E chunk v = Next v'
        /\ calls v' = (calls v ++ [Send chunk (Some m)
                                        (Some (clock E (reads v)))])%list
        /\ firstChunk v' = false /\ msg v' = Some m
        /\ lastUpdate v' = clock E (reads v) /\ reads v' = S (reads v)
        /\ edits v' = edits v /\ logs v' = logs v
  | None =>
      exists v', deliver E chunk v = Return v' (Some SendError)
        /\ calls v' = (calls v ++ [Send chunk None None])%list
        /\ logs v' = (logs v ++ [LogSendError])%list
  end.
Proof.
  intro H. unfold deliver. cbn. rewrite H.
  destruct (sendResult E chunk) as [m|]; eexists; split; try reflexivity;
    cbn; repeat split; reflexivity.
Qed.

(** A later chunk: the clock is read; when more than the interval has
    passed since [lastUpdate], one edit with the whole text, and the clock
    is read again into [lastUpdate], whatever the outcome of the edit. *)
Lemma deliver_later (E : Env) (chunk : string) (v : Vars) :
  firstChunk v = false ->
  exists v', deliver E chunk v = Next v'
    /\ fullResponse v' = fullResponse v ++ chunk
    /\ firstChunk v' = false /\ msg v' = msg v
    /\ if (updateInterval <? clock E (reads v) - lastUpdate v)%Z then
         let ok := editResult E (edits v) (fullResponse v ++ chunk) in
         calls v' = (calls v ++ [Edit (msg v) (fullResponse v ++ chunk) ok
                                      (Some (clock E (S (reads v))))])%list
         /\ lastUpdate v' = clock E (S (reads v))
         /\ reads v' = S (S (reads v)) /\ edits v' = S (edits v)
         /\ logs v' = (logs v ++ if ok then [] else [LogUpdateError])%list
       else
         calls v' = calls v /\ lastUpdate v' = lastUpdate v
         /\ reads v' = S (reads v) /\ edits v' = edits v /\ logs v' = logs v.
Proof.
  intro H. unfold deliver. cbn. rewrite H, Sub_interval.
  destruct (_ <? _)%Z.
  - eexists; split; [reflexivity|]. cbn.
    destruct (editResult E _ _); cbn; repeat split;
      try reflexivity; try assumption.
    now rewrite app_nil_r.
  - eexists; split; [reflexivity|]. cbn.
    repeat split; try reflexivity; assumption.
Qed.

(** Every iteration either skips the line or runs the delivery code. *)
Lemma body_cases (U : string -> option GeminiResponse) (E : Env)
  (line : string) (v : Vars) :
  (exists printed,
      body U E line v = Next (logAll printed (log (LogRawLine line) v))
      /\ filter isEditError printed = [])
  \/ (exists chunk,
         fragment U line = Some chunk
         /\ body U E line v
            = deliver E chunk (log (LogChunk chunk) (log (LogRawLine line) v))).
Proof.
  destruct (fragment U line) as [chunk|] eqn:F.
  - right. exists chunk. split; [reflexivity|]. now apply body_chunk.
  - left. now apply body_skip.
Qed.

(** A property kept by every iteration that goes on holds when the loop
    ends; one that holds when an iteration returns holds when the loop
    returns. *)
Lemma scan_invariant (U : string -> option GeminiResponse) (E : Env)
  (P Q : Vars -> Prop) :
  (forall line v, P v ->
                  match body U E line v with
                  | Next v' => P v'
                  | Return v' _ => Q v'
                  end) ->
  forall ls v, P v ->
               match scan U E ls v with
               | Next v' => P v'
               | Return v' _ => Q v'
               end.
Proof.
  intros Hb ls. induction ls as [|line rest IH]; intros v Hv; cbn.
  - exact Hv.
  - specialize (Hb line v Hv). destruct (body U E line v) as [v1|v1 e].
    + now apply IH.
    + exact Hb.
Qed.

(** A message is created at most once. *)
Lemma one_send (U : string -> option GeminiResponse) (E : Env)
  (ls : list string) (v : Vars) :
  sends v = O ->
  (sends (varsOf (scan U E ls v)) <= 1)%nat.
Proof.
  intro H0.
  pose (P := fun v => (firstChunk v = true -> sends v = O)
                      /\ (sends v <= 1)%nat).
  pose (Q := fun v => (sends v <= 1)%nat).
  assert (S : match scan U E ls v with
              | Next v' => P v'
              | Return v' _ => Q v'
              end).
  { apply scan_invariant.
    - clear. intros line v [Hf Hle].
      destruct (body_cases U E line v) as [(printed & -> & _)|(chunk & _ & ->)].
      + unfold P, sends in *.
        destruct (logAll_vars printed (log (LogRawLine line) v))
          as (_ & _ & _ & -> & _ & _ & -> & _).
        cbn. auto.
      + set (w := log (LogChunk chunk) (log (LogRawLine line) v)).
        destruct (firstChunk v) eqn:Fc.
        * pose proof (deliver_first E chunk w Fc) as D.
          specialize (Hf eq_refl).
          destruct (sendResult E chunk) as [m|].
          -- destruct D as (v' & -> & C & Fc' & _).
             unfold P, sends in *. rewrite C, Fc', filter_app, length_app.
             cbn in *. rewrite Hf. split; [discriminate | lia].
          -- destruct D as (v' & -> & C & _).
             unfold Q, sends in *. rewrite C, filter_app, length_app.
             cbn in *. rewrite Hf. lia.
        * destruct (deliver_later E chunk w Fc) as (v' & -> & _ & Fc' & _ & K).
          unfold P, sends in *. rewrite Fc'.
          split; [discriminate|].
          destruct (_ <? _)%Z.
          -- destruct K as (-> & _). rewrite filter_app, length_app.
             cbn in *. lia.
          -- destruct K as (-> & _). cbn in *. lia.
    - unfold P. split; [auto | lia]. }
  destruct (scan U E ls v); cbn; unfold P, Q in S; tauto.
Qed.

(** C5, as stated, fails at the boundary: the second fragment arrives
    when exactly the interval has passed since the first delivery, and no
    edit is made. *)
Lemma edit_needs_more_than_the_interval :
  let E := Sample.env [0; Sample.ms 500; Sample.ms 900]%Z true true in
  (clock E 1 - clock E 0 >= updateInterval)%Z
  /\ calls (varsOf (scan Json.Unmarshal E
                      [Sample.event "Hel"; Sample.event "lo"] (start [] [])))
     = [Send "Hel" (Some 7%Z) (Some 0%Z)].
Proof. vm_compute. split; [discriminate | reflexivity]. Qed.

(** C5, amended. For every fragment folded into the accumulated text
    after the first delivery, the decision is an edit carrying the whole
    accumulated text exactly when the time elapsed since the last delivery
    is strictly greater than 500 ms, and no call otherwise; the first
    fragment ever (empty or not) is instead sent as a new message, carrying
    the fragment, and from then on no message is created: a run of the loop
    makes at most one send. *)
Theorem throttle_decision :
  forall (U : string -> option GeminiResponse) (E : Env) (chunk : string)
         (v : Vars),
    (firstChunk v = false ->
     exists v', deliver E chunk v = Next v'
       /\ firstChunk v' = false
       /\ fullResponse v' = fullResponse v ++ chunk
       /\ let elapsed := (clock E (reads v) - lastUpdate v)%Z in
          ((500 * 1000000 < elapsed)%Z ->
           exists ok stamp,
             calls v' = (calls v ++ [Edit (msg v) (fullResponse v ++ chunk)
                                          ok (Some stamp)])%list)
          /\ ((elapsed <= 500 * 1000000)%Z -> calls v' = calls v))
    /\ (firstChunk v = true ->
        exists stamp,
          calls (varsOf (deliver E chunk v))
          = (calls v ++ [Send chunk (sendResult E chunk) stamp])%list)
    /\ (forall ls lg,
           (List.length
              (filter isSend (calls (varsOf (scan U E ls (start [] lg)))))
            <= 1)%nat).
Proof.
  intros U E chunk v. split; [|split].
  - intro H. destruct (deliver_later E chunk v H) as (v' & D & F & C & _ & K).
    exists v'. repeat split; try assumption.
    + intro Hlt. change (500 * 1000000)%Z with updateInterval in Hlt.
      apply Z.ltb_lt in Hlt. rewrite Hlt in K. destruct K as (K & _).
      eauto.
    + intro Hle. change (500 * 1000000)%Z with updateInterval in Hle.
      apply Z.ltb_ge in Hle. rewrite Hle in K. now destruct K.
  - intro H. pose proof (deliver_first E chunk v H) as D.
    destruct (sendResult E chunk) as [m|].
    + destruct D as (v' & -> & C & _). eexists. exact C.
    + destruct D as (v' & -> & C & _). eexists. exact C.
  - intros ls lg. apply (one_send U E). cbn. auto.
Qed.

Lemma throttle_decision_witness :
  let E := Sample.env [0; Sample.ms 100; Sample.ms 700; Sample.ms 701]%Z
                      true true in
  let v := {| fullResponse := "Hello "; msg := Some 7%Z; lastUpdate := 0%Z;
              firstChunk := false; reads := 2; edits := 0;
              calls := [Send "Hel" (Some 7%Z) (Some 0%Z)]; logs := [] |} in
  (exists v', deliver E "world" v = Next v'
     /\ exists ok stamp,
         calls v' = [Send "Hel" (Some 7%Z) (Some 0%Z);
                     Edit (Some 7%Z) "Hello world" ok (Some stamp)])
  /\ (exists stamp,
         calls (varsOf (deliver E "Hel" (start [] [])))
         = [Send "Hel" (Some 7%Z) stamp]).
Proof.
  cbv zeta. split.
  - destruct (proj1 (throttle_decision Json.Unmarshal
                       (Sample.env [0; Sample.ms 100; Sample.ms 700;
                                    Sample.ms 701]%Z true true)
                       "world"
                       {| fullResponse := "Hello "; msg := Some 7%Z;
                          lastUpdate := 0%Z; firstChunk := false; reads := 2;
                          edits := 0;
                          calls := [Send "Hel" (Some 7%Z) (Some 0%Z)];
                          logs := [] |}) eq_refl)
      as (v' & D & _ & _ & K & _).
    exists v'. split; [exact D|]. apply K. vm_compute. reflexivity.
  - exact (proj1 (proj2 (throttle_decision Json.Unmarshal
                           (Sample.env [0; Sample.ms 100; Sample.ms 700;
                                        Sample.ms 701]%Z true true)
                           "Hel" (start [] []))) eq_refl).
Defined.

(** ** Empty fragments *)

(** C6, as stated, fails: a data event whose fragment is the empty text is
    sent as a new message when it is the first fragment, and triggers an
    edit when it comes more than the interval after the last delivery. *)
Lemma empty_fragment_is_delivered :
  fragment Json.Unmarshal (Sample.event "") = Some ""
  /\ calls (varsOf (scan Json.Unmarshal (Sample.env [0%Z] true true)
                      [Sample.event ""] (start [] [])))
     = [Send "" (Some 7%Z) (Some 0%Z)]
  /\ calls (varsOf (scan Json.Unmarshal
                      (Sample.env [0; Sample.ms 600; Sample.ms 601]%Z true true)
                      [Sample.event "Hel"; Sample.event ""] (start [] [])))
     = [Send "Hel" (Some 7%Z) (Some 0%Z);
        Edit (Some 7%Z) "Hel" true (Some (Sample.ms 601))].
Proof. vm_compute. repeat split; reflexivity. Qed.

(** C6, amended. The throttle acts after every fragment folded into the
    accumulated text, empty or not: a line that yields a fragment goes
    through the delivery code with that fragment, so that an empty fragment
    is sent when it is the first one, and triggers an edit with the
    accumulated text when more than the interval has passed; only a line
    that yields no fragment (not an event, the sentinel, a malformed
    payload, a response without candidate or part) causes no call and leaves
    the variables of the loop as they are. *)
Theorem throttle_acts_on_every_fragment :
  forall (U : string -> option GeminiResponse) (E : Env) (line : string)
         (v : Vars),
    (forall chunk,
        fragment U line = Some chunk ->
        body U E line v
        = deliver E chunk (log (LogChunk chunk) (log (LogRawLine line) v)))
    /\ (fragment U line = Some "" -> firstChunk v = true ->
        exists stamp,
          calls (varsOf (body U E line v))
          = (calls v ++ [Send "" (sendResult E "") stamp])%list)
    /\ (fragment U line = Some "" -> firstChunk v = false ->
        (updateInterval < clock E (reads v) - lastUpdate v)%Z ->
        exists ok stamp,
          calls (varsOf (body U E line v))
          = (calls v ++ [Edit (msg v) (fullResponse v) ok (Some stamp)])%list)
    /\ (fragment U line = None ->
        exists v', body U E line v = Next v'
          /\ calls v' = calls v /\ fullResponse v' = fullResponse v
          /\ msg v' = msg v /\ firstChunk v' = firstChunk v
          /\ lastUpdate v' = lastUpdate v).
Proof.
  intros U E line v. split; [|split; [|split]].
  - intros chunk F. now apply body_chunk.
  - intros F Fc. rewrite (body_chunk U E _ _ v F).
    set (w := log (LogChunk "") (log (LogRawLine line) v)).
    pose proof (deliver_first E "" w Fc) as D.
    destruct (sendResult E "") as [m|];
      destruct D as (v' & -> & C & _); eexists; exact C.
  - intros F Fc Hlt. rewrite (body_chunk U E _ _ v F).
    set (w := log (LogChunk "") (log (LogRawLine line) v)).
    destruct (deliver_later E "" w Fc) as (v' & -> & _ & _ & _ & K).
    change (reads w) with (reads v) in K.
    change (lastUpdate w) with (lastUpdate v) in K.
    apply Z.ltb_lt in Hlt. rewrite Hlt in K.
    destruct K as (K & _). cbn in K. rewrite append_empty_r in K. cbn. eauto.
  - intro F. destruct (body_skip U E line v F) as (printed & -> & _).
    eexists. split; [reflexivity|].
    destruct (logAll_vars printed (log (LogRawLine line) v))
      as (-> & -> & -> & -> & _ & _ & -> & _).
    cbn. repeat split; reflexivity.
Qed.

Lemma throttle_acts_on_every_fragment_witness :
  (exists stamp,
      calls (varsOf (body Json.Unmarshal (Sample.env [0%Z] true true)
                       (Sample.event "") (start [] [])))
      = [Send "" (Some 7%Z) stamp])
  /\ (exists v', body Json.Unmarshal (Sample.env [0%Z] true true)
                   Sample.broken (start [] []) = Next v'
                 /\ calls v' = []).
Proof.
  split.
  - refine (proj1 (proj2 (throttle_acts_on_every_fragment Json.Unmarshal
                            (Sample.env [0%Z] true true) (Sample.event "")
                            (start [] []))) _ _);
      vm_compute; reflexivity.
  - destruct (proj2 (proj2 (proj2
                (throttle_acts_on_every_fragment Json.Unmarshal
                   (Sample.env [0%Z] true true) Sample.broken
                   (start [] [])))) eq_refl)
      as (v' & B & C & _).
    exists v'. split; assumption.
Defined.

(** ** The spacing of the deliveries *)

Lemma stamps_app (a b : list Call) :
  stamps (a ++ b) = (stamps a ++ stamps b)%list.
Proof.
  induction a as [|c a IH]; cbn; [reflexivity|].
  destruct (stampOf c); cbn; now rewrite IH.
Qed.

Lemma spaced_snoc (d u t : Z) (l : list Z) :
  spaced d (l ++ [u]) -> (d < t - u)%Z -> spaced d ((l ++ [u]) ++ [t]).
Proof.
  induction l as [|a l IH]; cbn; intros H Hd.
  - auto.
  - destruct (l ++ [u])%list as [|b r] eqn:L.
    + now destruct l.
    + cbn. destruct H as [Hab Hr]. split; [exact Hab|]. now apply IH.
Qed.

(** The code after the loop reads no clock: its calls carry no stamp. *)
Lemma finish_stamps (E : Env) (telegramID : Z) (userMsg : string)
  (statusCode : Z) (v : Vars) :
  stamps (calls (fst (finish E telegramID userMsg statusCode v)))
  = stamps (calls v).
Proof.
  unfold finish.
  destruct (0 <? _)%nat.
  - cbn. destruct (editResult E _ _), (saveResult E); cbn;
      rewrite !stamps_app; cbn; now rewrite !app_nil_r.
  - destruct (negb _).
    + cbn. destruct (msg v); cbn.
      * destruct (editResult E _ _); cbn; rewrite stamps_app; cbn;
          now rewrite app_nil_r.
      * destruct (replyResult E _); cbn; rewrite stamps_app; cbn;
          now rewrite app_nil_r.
    + destruct (msg v); cbn; [reflexivity|].
      rewrite stamps_app. cbn. now rewrite app_nil_r.
Qed.

Lemma body_throttled (U : string -> option GeminiResponse) (E : Env)
  (line : string) (v : Vars) :
  monotone (clock E) ->
  throttled v ->
  match body U E line v with
  | Next v' => throttled v'
  | Return v' _ => wellSpaced v'
  end.
Proof.
  intros Hm [[Hs Hf] Hl].
  destruct (body_cases U E line v) as [(printed & -> & _)|(chunk & _ & ->)].
  - unfold throttled, wellSpaced.
    destruct (logAll_vars printed (log (LogRawLine line) v))
      as (_ & _ & -> & -> & _ & _ & -> & _).
    cbn. auto.
  - set (w := log (LogChunk chunk) (log (LogRawLine line) v)).
    destruct (firstChunk v) eqn:Fc.
    + pose proof (deliver_first E chunk w Fc) as D.
      destruct (sendResult E chunk) as [m|].
      * destruct D as (v' & -> & C & Fc' & _ & Lu & _).
        unfold throttled, wellSpaced. rewrite C, Fc', Lu, stamps_app.
        cbn in *. rewrite Hl. cbn. repeat split.
        -- apply Forall_app. split; [exact Hf|]. repeat constructor.
        -- now exists [].
      * destruct D as (v' & -> & C & _).
        unfold wellSpaced. rewrite C, stamps_app.
        cbn in *. rewrite Hl. cbn. split; [exact I|].
        apply Forall_app. split; [exact Hf|]. repeat constructor.
    + destruct (deliver_later E chunk w Fc) as (v' & -> & _ & Fc' & _ & K).
      unfold throttled, wellSpaced. rewrite Fc'.
      change (reads w) with (reads v) in K.
      change (lastUpdate w) with (lastUpdate v) in K.
      change (calls w) with (calls v) in K.
      destruct (Z.ltb_spec updateInterval (clock E (reads v) - lastUpdate v))
        as [Hlt|Hge].
      * destruct K as (C & Lu & _). rewrite C, Lu, stamps_app.
        destruct Hl as [l Hl]. rewrite Hl in *. cbn.
        pose proof (Hm (reads v) (S (reads v)) (Nat.le_succ_diag_r _)) as M.
        repeat split.
        -- apply spaced_snoc; [exact Hs | unfold updateInterval in *; lia].
        -- apply Forall_app. split; [exact Hf|]. repeat constructor.
        -- now exists (l ++ [lastUpdate v])%list.
      * destruct K as (C & Lu & _). rewrite C, Lu. auto.
Qed.

(** C7. When the clock does not go backwards, the deliveries made by the
    scan loop (the send of the first chunk and the edits) carry timestamps
    each of which is more than the interval of 500 ms after the one before,
    whatever the outcomes of the edits: an edit that fails still resets
    [lastUpdate].  The code after the loop, which makes the final delivery,
    takes no timestamp: the final edit is outside the throttle. *)
Theorem deliveries_are_spaced :
  forall (U : string -> option GeminiResponse) (E : Env) (ls : list string)
         (lg : list LogMsg),
    monotone (clock E) ->
    let v := varsOf (scan U E ls (start [] lg)) in
    spaced (500 * 1000000) (stamps (calls v))
    /\ Forall stampedDelivery (calls v)
    /\ (forall telegramID userMsg statusCode,
           stamps (calls (fst (finish E telegramID userMsg statusCode v)))
           = stamps (calls v))
    /\ (forall chunk w,
           firstChunk w = false ->
           (500 * 1000000 < clock E (reads w) - lastUpdate w)%Z ->
           lastUpdate (varsOf (deliver E chunk w)) = clock E (S (reads w))).
Proof.
  intros U E ls lg Hm v.
  assert (S : match scan U E ls (start [] lg) with
              | Next v' => throttled v'
              | Return v' _ => wellSpaced v'
              end).
  { apply scan_invariant.
    - intros line v0. now apply body_throttled.
    - unfold throttled, wellSpaced. cbn. auto. }
  assert (W : wellSpaced v).
  { subst v. destruct (scan U E ls (start [] lg)); cbn; [apply S | exact S]. }
  destruct W as [Ws Wf].
  split; [exact Ws|]. split; [exact Wf|]. split.
  - intros. apply finish_stamps.
  - intros chunk w Fc Hlt.
    destruct (deliver_later E chunk w Fc) as (v' & -> & _ & _ & _ & K).
    change (500 * 1000000)%Z with updateInterval in Hlt.
    apply Z.ltb_lt in Hlt. rewrite Hlt in K. destruct K as (_ & K & _).
    exact K.
Qed.

Lemma deliveries_are_spaced_witness :
  let E := Sample.steady (Sample.ms 300) true false in
  let v := varsOf (scan Json.Unmarshal E
                     [Sample.event "a"; Sample.event "b"; Sample.event "c";
                      Sample.event "d"; Sample.event "e"] (start [] [])) in
  spaced (500 * 1000000) (stamps (calls v))
  /\ Forall stampedDelivery (calls v).
Proof.
  cbv zeta.
  destruct (deliveries_are_spaced Json.Unmarshal
              (Sample.steady (Sample.ms 300) true false)
              [Sample.event "a"; Sample.event "b"; Sample.event "c";
               Sample.event "d"; Sample.event "e"] [])
    as (A & B & _).
  - intros i j H. cbn. unfold Sample.ms. lia.
  - split; assumption.
Defined.

(** ** Failures of the bot *)

Lemma logAll_same (ms1 ms2 : list LogMsg) (v1 v2 : Vars) :
  sameButEdits v1 v2 -> sameButEdits (logAll ms1 v1) (logAll ms2 v2).
Proof.
  unfold sameButEdits.
  destruct (logAll_vars ms1 v1) as (-> & -> & -> & -> & -> & -> & -> & _).
  destruct (logAll_vars ms2 v2) as (-> & -> & -> & -> & -> & -> & -> & _).
  auto.
Qed.

(** The delivery code does the same under other edit outcomes. *)
Lemma deliver_same (E : Env) (f : nat -> string -> bool) (chunk : string)
  (v1 v2 : Vars) :
  sameButEdits v1 v2 ->
  sameFlow (deliver E chunk v1) (deliver (withEdits f E) chunk v2).
Proof.
  destruct v1 as [fr1 m1 lu1 fc1 r1 e1 cs1 lg1].
  destruct v2 as [fr2 m2 lu2 fc2 r2 e2 cs2 lg2].
  unfold sameButEdits. cbn. intros (-> & -> & -> & -> & -> & -> & H).
  unfold deliver. cbn.
  destruct fc2.
  - destruct (sendResult E chunk) as [m|]; unfold sameFlow, sameButEdits;
      cbn; rewrite !map_app, H; repeat split; reflexivity.
  - destruct (_ <? _)%Z.
    + destruct (editResult E e2 _), (f e2 _); unfold sameFlow, sameButEdits;
        cbn; rewrite !map_app, H; repeat split; reflexivity.
    + unfold sameFlow, sameButEdits; cbn. repeat split; auto.
Qed.

Lemma body_same (U : string -> option GeminiResponse) (E : Env)
  (f : nat -> string -> bool) (line : string) (v1 v2 : Vars) :
  sameButEdits v1 v2 ->
  sameFlow (body U E line v1) (body U (withEdits f E) line v2).
Proof.
  intro H.
  destruct (fragment U line) as [chunk|] eqn:F.
  - rewrite !(body_chunk U _ _ _ _ F). apply deliver_same.
    exact (logAll_same [LogRawLine line; LogChunk chunk]
                       [LogRawLine line; LogChunk chunk] v1 v2 H).
  - destruct (body_skip U E line v1 F) as (p1 & -> & _).
    destruct (body_skip U (withEdits f E) line v2 F) as (p2 & -> & _).
    cbn. apply logAll_same.
    exact (logAll_same [LogRawLine line] [LogRawLine line] v1 v2 H).
Qed.

Lemma scan_same (U : string -> option GeminiResponse) (E : Env)
  (f : nat -> string -> bool) (ls : list string) :
  forall v1 v2,
    sameButEdits v1 v2 ->
    sameFlow (scan U E ls v1) (scan U (withEdits f E) ls v2).
Proof.
  induction ls as [|line rest IH]; intros v1 v2 H; cbn.
  - exact H.
  - pose proof (body_same U E f line v1 v2 H) as B.
    destruct (body U E line v1) as [w1|w1 e1],
             (body U (withEdits f E) line v2) as [w2|w2 e2];
      cbn in B; try contradiction.
    + now apply IH.
    + exact B.
Qed.

Lemma finish_same (E : Env) (f : nat -> string -> bool) (telegramID : Z)
  (userMsg : string) (statusCode : Z) (v1 v2 : Vars) :
  sameButEdits v1 v2 ->
  sameButEdits (fst (finish E telegramID userMsg statusCode v1))
               (fst (finish (withEdits f E) telegramID userMsg statusCode v2))
  /\ snd (finish E telegramID userMsg statusCode v1)
     = snd (finish (withEdits f E) telegramID userMsg statusCode v2).
Proof.
  destruct v1 as [fr1 m1 lu1 fc1 r1 e1 cs1 lg1].
  destruct v2 as [fr2 m2 lu2 fc2 r2 e2 cs2 lg2].
  unfold sameButEdits. cbn. intros (-> & -> & -> & -> & -> & -> & H).
  unfold finish. cbn [fullResponse msg edits calls logs].
  destruct fr2 as [|c0 fr2]; cbn [String.length Nat.ltb Nat.leb].
  - destruct (negb _).
    + destruct m2; cbn.
      * destruct (editResult E e2 _), (f e2 _);
          unfold sameButEdits; cbn; rewrite !map_app, H;
          repeat split; reflexivity.
      * destruct (replyResult E _);
          unfold sameButEdits; cbn; rewrite !map_app, H;
          repeat split; reflexivity.
    + destruct m2; cbn.
      * repeat split; assumption.
      * unfold sameButEdits; cbn; rewrite !map_app, H.
        repeat split; reflexivity.
  - cbn. destruct (editResult E e2 _), (f e2 _), (saveResult E);
      unfold sameButEdits; cbn; rewrite !map_app, H; repeat split; reflexivity.
Qed.

(** Every edit that fails is logged, and only those are logged as such. *)
Lemma deliver_balance (E : Env) (chunk : string) (v : Vars) :
  balance (varsOf (deliver E chunk v)) = balance v.
Proof.
  destruct v as [fr m lu fc r e cs lg].
  unfold deliver, balance, editErrors, failedEdits. cbn.
  destruct fc.
  - destruct (sendResult E chunk); cbn;
      rewrite ?filter_app, ?length_app; cbn; lia.
  - destruct (_ <? _)%Z; [|reflexivity].
    destruct (editResult E e _); cbn;
      rewrite ?filter_app, ?length_app; cbn; lia.
Qed.

Lemma body_balance (U : string -> option GeminiResponse) (E : Env)
  (line : string) (v : Vars) :
  balance (varsOf (body U E line v)) = balance v.
Proof.
  destruct (body_cases U E line v) as [(printed & -> & Q)|(chunk & _ & ->)].
  - cbn. unfold balance, editErrors, failedEdits.
    destruct (logAll_vars printed (log (LogRawLine line) v))
      as (_ & _ & _ & _ & _ & _ & -> & ->).
    cbn. rewrite !filter_app, Q, !length_app. cbn. lia.
  - rewrite deliver_balance.
    unfold balance, editErrors, failedEdits. cbn.
    rewrite !filter_app, !length_app. cbn. lia.
Qed.

Lemma scan_balance (U : string -> option GeminiResponse) (E : Env)
  (ls : list string) (v : Vars) :
  balance (varsOf (scan U E ls v)) = balance v.
Proof.
  pose (P := fun w => balance w = balance v).
  assert (S : match scan U E ls v with
              | Next v' => P v'
              | Return v' _ => P v'
              end).
  { apply scan_invariant; [|reflexivity].
    intros line w Hw. pose proof (body_balance U E line w) as B.
    destruct (body U E line w); cbn in B; unfold P; congruence. }
  destruct (scan U E ls v); exact S.
Qed.

Lemma finish_balance (E : Env) (telegramID : Z) (userMsg : string)
  (statusCode : Z) (v : Vars) :
  balance (fst (finish E telegramID userMsg statusCode v)) = balance v.
Proof.
  destruct v as [fr m lu fc r e cs lg].
  unfold finish, balance, editErrors, failedEdits.
  cbn [fullResponse msg edits calls logs].
  destruct fr as [|c0 fr]; cbn [String.length Nat.ltb Nat.leb].
  - destruct (negb _).
    + destruct m; cbn.
      * destruct (editResult E e _); cbn;
          rewrite ?filter_app, ?length_app; cbn; lia.
      * destruct (replyResult E _); cbn;
          rewrite ?filter_app, ?length_app; cbn; lia.
    + destruct m; cbn; rewrite ?filter_app, ?length_app; cbn; lia.
  - cbn. destruct (editResult E e _), (saveResult E); cbn;
      rewrite ?filter_app, ?length_app; cbn; lia.
Qed.

(** C4, as stated, fails for the initial send: when it fails the handler
    logs the error and returns it; the second line of the stream is not
    read, and neither the final edit nor [saveMessage] takes place. *)
Lemma failed_send_aborts_the_run :
  let out := aggregate Json.Unmarshal (Sample.env [0%Z] false true) 42 "hi"
               (Sample.response [Sample.event "Hel"; Sample.event "lo"] false)
               (start [] []) in
  snd out = Some SendError
  /\ fullResponse (fst out) = "Hel"
  /\ calls (fst out) = [Send "Hel" None None]
  /\ logs (fst out)
     = [LogRawLine (Sample.event "Hel"); LogChunk "Hel"; LogSendError].
Proof. vm_compute. repeat split; reflexivity. Qed.

(** C4, amended. Every failure of an edit, periodic or final, is logged
    only and aggregation proceeds: with other outcomes of the edits the run
    consumes the same lines, accumulates the same text, makes the same calls
    with the same texts and stamps and returns the same error, and the edits
    that failed are as many as the errors of edits in the log.  A failure of
    the initial send is logged and returned by the handler, which ends the
    run there. *)
Theorem edit_failures_are_logged_only :
  forall (U : string -> option GeminiResponse) (E : Env)
         (f : nat -> string -> bool) (telegramID : Z) (userMsg : string)
         (resp : Response) (cs : list Call) (lg : list LogMsg),
    let a := aggregate U E telegramID userMsg resp (start cs lg) in
    let b := aggregate U (withEdits f E) telegramID userMsg resp
               (start cs lg) in
    (snd a = snd b
     /\ fullResponse (fst a) = fullResponse (fst b)
     /\ map forget (calls (fst a)) = map forget (calls (fst b)))
    /\ (failedEdits (fst a) + List.length (filter isEditError lg)
        = editErrors (fst a) + List.length (filter isFailedEdit cs))%nat
    /\ (forall line rest chunk v,
           fragment U line = Some chunk ->
           firstChunk v = true ->
           sendResult E chunk = None ->
           exists v',
             aggregate U E telegramID userMsg
               {| StatusCode := StatusCode resp; lines := line :: rest;
                  readError := readError resp |} v
             = (v', Some SendError)
             /\ calls v' = (calls v ++ [Send chunk None None])%list
             /\ logs v' = (logs v ++ [LogRawLine line; LogChunk chunk;
                                      LogSendError])%list).
Proof.
  intros U E f telegramID userMsg resp cs lg a b. split; [|split].
  - subst a b. unfold aggregate.
    assert (H0 : sameButEdits (start cs lg) (start cs lg))
      by (unfold sameButEdits; repeat split; reflexivity).
    pose proof (scan_same U E f (lines resp) _ _ H0) as S.
    destruct (scan U E (lines resp) (start cs lg)) as [w1|w1 e1],
             (scan U (withEdits f E) (lines resp) (start cs lg)) as [w2|w2 e2];
      cbn in S; try contradiction.
    + destruct (finish_same E f telegramID userMsg (StatusCode resp) w1 w2 S)
        as ((A & _ & _ & _ & _ & _ & C) & R).
      auto.
    + destruct S as (-> & A & _ & _ & _ & _ & _ & C). cbn. auto.
  - assert (B : balance (fst a) = balance (start cs lg)).
    { subst a. unfold aggregate.
      pose proof (scan_balance U E (lines resp) (start cs lg)) as S.
      destruct (scan U E (lines resp) (start cs lg)) as [w|w e]; cbn in S.
      - now rewrite finish_balance.
      - exact S. }
    unfold balance in B. unfold editErrors at 2 in B.
    unfold failedEdits at 2 in B. cbn in B. lia.
  - intros line rest chunk v F Fc Hs.
    unfold aggregate. cbn [lines scan].
    rewrite (body_chunk U E _ _ v F).
    set (w := log (LogChunk chunk) (log (LogRawLine line) v)).
    pose proof (deliver_first E chunk w Fc) as D. rewrite Hs in D.
    destruct D as (v' & -> & C & L). exists v'.
    split; [reflexivity|]. split; [exact C|].
    rewrite L. cbn. now rewrite <- !app_assoc.
Qed.

Lemma edit_failures_are_logged_only_witness :
  exists v',
    aggregate Json.Unmarshal (Sample.env [0%Z] false true) 42 "hi"
      (Sample.response [Sample.event "Hel"; Sample.event "lo"] false)
      (start [] [])
    = (v', Some SendError)
    /\ calls v' = [Send "Hel" None None]
    /\ logs v' = [LogRawLine (Sample.event "Hel"); LogChunk "Hel";
                  LogSendError].
Proof.
  refine (proj2 (proj2 (edit_failures_are_logged_only Json.Unmarshal
                          (Sample.env [0%Z] false true) (fun _ _ => true)
                          42 "hi"
                          (Sample.response [] false) [] []))
            (Sample.event "Hel") [Sample.event "lo"] "Hel" (start [] [])
            _ _ _);
    vm_compute; reflexivity.
Defined.

(** ** The history before the request *)

(** The calls of a run extend the calls made before it. *)
Lemma body_calls (U : string -> option GeminiResponse) (E : Env)
  (line : string) (v : Vars) :
  exists more, calls (varsOf (body U E line v)) = (calls v ++ more)%list.
Proof.
  destruct (body_cases U E line v) as [(printed & -> & _)|(chunk & _ & ->)].
  - exists []. cbn.
    destruct (logAll_vars printed (log (LogRawLine line) v))
      as (_ & _ & _ & _ & _ & _ & -> & _).
    cbn. now rewrite app_nil_r.
  - set (w := log (LogChunk chunk) (log (LogRawLine line) v)).
    change (calls v) with (calls w).
    destruct (firstChunk w) eqn:Fc.
    + pose proof (deliver_first E chunk w Fc) as D.
      destruct (sendResult E chunk);
        destruct D as (v' & -> & C & _); cbn; rewrite C; eexists; reflexivity.
    + destruct (deliver_later E chunk w Fc) as (v' & -> & _ & _ & _ & K).
      destruct (_ <? _)%Z.
      * destruct K as (C & _). cbn. rewrite C. eexists; reflexivity.
      * destruct K as (C & _). cbn. rewrite C. exists [].
        now rewrite app_nil_r.
Qed.

Lemma scan_calls (U : string -> option GeminiResponse) (E : Env)
  (ls : list string) (v : Vars) :
  exists more, calls (varsOf (scan U E ls v)) = (calls v ++ more)%list.
Proof.
  pose (P := fun w => exists more, calls w = (calls v ++ more)%list).
  assert (S : match scan U E ls v with
              | Next v' => P v'
              | Return v' _ => P v'
              end).
  { apply scan_invariant.
    - intros line w [more Hw].
      destruct (body_calls U E line w) as [more' B].
      destruct (body U E line w); cbn in B; unfold P;
        exists (more ++ more')%list; now rewrite B, Hw, app_assoc.
    - exists []. now rewrite app_nil_r. }
  destruct (scan U E ls v); exact S.
Qed.

Lemma finish_calls (E : Env) (telegramID : Z) (userMsg : string)
  (statusCode : Z) (v : Vars) :
  exists more,
    calls (fst (finish E telegramID userMsg statusCode v))
    = (calls v ++ more)%list.
Proof.
  destruct v as [fr m lu fc r e cs lg].
  unfold finish. cbn [fullResponse msg edits calls logs].
  destruct fr as [|c0 fr]; cbn [String.length Nat.ltb Nat.leb].
  - destruct (negb _).
    + destruct m; cbn.
      * destruct (editResult E e _); cbn; eexists; reflexivity.
      * destruct (replyResult E _); cbn; eexists; reflexivity.
    + destruct m; cbn.
      * exists []. now rewrite app_nil_r.
      * eexists; reflexivity.
  - cbn. destruct (editResult E e _), (saveResult E); cbn;
      rewrite <- app_assoc; eexists; reflexivity.
Qed.

Lemma aggregate_calls (U : string -> option GeminiResponse) (E : Env)
  (telegramID : Z) (userMsg : string) (resp : Response) (v : Vars) :
  exists more,
    calls (fst (aggregate U E telegramID userMsg resp v))
    = (calls v ++ more)%list.
Proof.
  unfold aggregate.
  destruct (scan_calls U E (lines resp) v) as [more S].
  destruct (scan U E (lines resp) v) as [w|w e]; cbn in S.
  - destruct (finish_calls E telegramID userMsg (StatusCode resp) w)
      as [more' F].
    exists (more ++ more')%list. now rewrite F, S, app_assoc.
  - exists more. exact S.
Qed.

(** After the patch of the deletion, the first record of the user holds
    no message. *)
Lemma patched_first (telegramID id : Z) (body : UserMessages)
  (l : list UserMessages) :
  TelegramID body = telegramID ->
  Messages body = [] ->
  forall u q,
    filter (ofUser telegramID) l = u :: q ->
    ID u = id ->
    exists u' q',
      filter (ofUser telegramID)
             (map (fun r => if (ID r =? id)%Z then body else r) l)
      = u' :: q'
      /\ Messages u' = [].
Proof.
  intros Ht Hm. induction l as [|r l IH]; intros u q Hf Hid; cbn in *.
  - discriminate.
  - assert (Hb : ofUser telegramID body = true)
      by (unfold ofUser; now apply Z.eqb_eq).
    destruct (ofUser telegramID r) eqn:Hr.
    + injection Hf as -> _. rewrite Hid, Z.eqb_refl. rewrite Hb. eauto.
    + destruct (ID r =? id)%Z.
      * rewrite Hb. eauto.
      * rewrite Hr. now apply (IH u q).
Qed.

Lemma deleteUserHistory_clears (telegramID : Z) (R R' : Mokky) :
  deleteUserHistory telegramID R = (R', None) ->
  history telegramID R' = [].
Proof.
  unfold deleteUserHistory.
  destruct (negb (urlSet R)); [discriminate|].
  destruct (negb (up R (trips R))); [discriminate|].
  destruct (query telegramID R) as [|u q] eqn:Q; [discriminate|].
  destruct (negb _); [discriminate|].
  intro H. injection H as <-.
  unfold history, query, patch. cbn.
  destruct (patched_first telegramID (ID u)
              {| ID := ID u; TelegramID := telegramID;
                 Username := Username u; Messages := [] |}
              (users R) eq_refl eq_refl u q Q eq_refl)
    as (u' & q' & -> & Hm).
  exact Hm.
Qed.

(** The deletion changes nothing of the store but the round trips made
    when the history has at most 100 messages. *)
Lemma cleanup_small (telegramID : Z) (messages : list Message) (R : Mokky) :
  (List.length messages <= 100)%nat ->
  cleanupMessageHistory telegramID messages R = (R, ([], []), None).
Proof.
  intro H. unfold cleanupMessageHistory.
  destruct (Nat.ltb_spec 100 (List.length messages)); [lia | reflexivity].
Qed.

(** The handler first cleans up, then issues the request with the context
    built from the messages it read, the store being as the clean-up left
    it. *)
Lemma OnText_shape (U : string -> option GeminiResponse) (E : Env)
  (telegramID : Z) (userMsg : string) (R : Mokky) :
  forall R0 prev err R' cs ls e,
    getUserMessages telegramID R = (R0, (prev, err)) ->
    cleanupMessageHistory telegramID prev R0 = (R', (cs, ls), e) ->
    remote (OnText U E telegramID userMsg R) = R'
    /\ exists more,
        calls (final (OnText U E telegramID userMsg R))
        = (cs ++ Generate (contextMessages prev userMsg) :: more)%list.
Proof.
  intros R0 prev err R' cs ls e G C. unfold OnText. rewrite G, C.
  destruct (doResult E _) as [resp|].
  - match goal with
    | |- context [aggregate U E telegramID userMsg resp ?s] =>
        destruct (aggregate_calls U E telegramID userMsg resp s) as [more A];
        destruct (aggregate U E telegramID userMsg resp s) as [v r]
    end.
    cbn in *. split; [reflexivity|]. exists more.
    now rewrite A, <- app_assoc.
  - cbn. split; [reflexivity|]. eexists. now rewrite <- app_assoc.
Qed.

(** C9. With a history of at most 100 prior turns (100 included) nothing
    is evicted: the clean-up makes no call and returns the store it was
    given, whose records are those the handler found, and the first call of
    the handler is the generation request.  With more than 100 the handler
    first calls [deleteUserHistory], then issues the request; when the two
    round trips of the deletion succeed, the deletion reports no error and,
    in the store as the clean-up leaves it, which is the store when the
    request is issued, the history of the user is empty: all of it is
    deleted, not a window.  In both cases the context of the request is the
    prior turns in order, their roles and texts unchanged, followed by the
    new user turn, which is last. *)
Theorem history_assembly :
  forall (U : string -> option GeminiResponse) (E : Env) (telegramID : Z)
         (userMsg : string) (R : Mokky),
    let prev := fst (snd (getUserMessages telegramID R)) in
    let R0 := fst (getUserMessages telegramID R) in
    let cleaned := cleanupMessageHistory telegramID prev R0 in
    let atRequest := fst (fst cleaned) in
    let out := OnText U E telegramID userMsg R in
    let turn := {| Role := "user"; Parts := [{| Text := userMsg |}] |} in
    ((List.length prev <= 100)%nat ->
     cleaned = (R0, ([], []), None)
     /\ users atRequest = users R
     /\ exists more,
         calls (final out) = Generate (contextMessages prev userMsg) :: more)
    /\ ((100 < List.length prev)%nat ->
        exists e more,
          fst (snd (fst cleaned)) = [DeleteUserHistory telegramID e]
          /\ calls (final out)
             = DeleteUserHistory telegramID e
                 :: Generate (contextMessages prev userMsg) :: more
          /\ (up R (S (trips R)) = true ->
              up R (S (S (trips R))) = true ->
              e = None /\ history telegramID atRequest = []))
    /\ contextMessages prev userMsg = (map toContent prev ++ [turn])%list
    /\ last (contextMessages prev userMsg) turn = turn
    /\ map Role (contextMessages prev userMsg)
       = (map MessageRole prev ++ ["user"])%list
    /\ map Parts (contextMessages prev userMsg)
       = (map (fun m => [{| Text := MessageText m |}]) prev
            ++ [[{| Text := userMsg |}]])%list.
Proof.
  intros U E telegramID userMsg R prev R0 cleaned atRequest out turn.
  destruct (getUserMessages telegramID R) as [R0' [prev0 err]] eqn:G.
  cbn in prev, R0. subst prev R0.
  assert (HR0 : users R0' = users R).
  { revert G. unfold getUserMessages.
    destruct (negb (urlSet R)); [now intros [= <- _ _]|].
    destruct (negb (up R (trips R))); [now intros [= <- _ _]|].
    destruct (query telegramID R); now intros [= <- _ _]. }
  split; [|split]; [| |repeat split].
  - intro Hlen.
    pose proof (cleanup_small telegramID prev0 R0' Hlen) as C.
    destruct (OnText_shape U E telegramID userMsg R _ _ _ _ _ _ _ G C)
      as (_ & more & Hc).
    subst atRequest cleaned out. rewrite C. cbn [fst].
    split; [reflexivity|]. split; [exact HR0|]. exists more. exact Hc.
  - intro Hlen.
    assert (Hok : urlSet R = true /\ up R (trips R) = true
                  /\ R0' = trip R
                  /\ exists u q, query telegramID R = u :: q).
    { revert G. unfold getUserMessages.
      destruct (urlSet R); cbn [negb];
        [|intros [= _ <- _]; cbn in Hlen; lia].
      destruct (up R (trips R)); cbn [negb];
        [|intros [= _ <- _]; cbn in Hlen; lia].
      destruct (query telegramID R) as [|u q];
        [intros [= _ <- _]; cbn in Hlen; lia|].
      intros [= <- _ _]. eauto 6. }
    destruct Hok as (Hurl & Hup & -> & u & q & Hq).
    subst atRequest cleaned.
    destruct (cleanupMessageHistory telegramID prev0 (trip R))
      as [[R' [cs ls]] e] eqn:C.
    destruct (OnText_shape U E telegramID userMsg R _ _ _ _ _ _ _ G C)
      as (_ & more & Hc).
    subst out. rewrite Hc. cbn [fst snd].
    revert C. unfold cleanupMessageHistory.
    apply Nat.ltb_lt in Hlen. rewrite Hlen.
    destruct (deleteUserHistory telegramID (trip R)) as [R1 [e1|]] eqn:D.
    + intros [= <- <- _ _]. exists (Some e1), more.
      split; [reflexivity|]. split; [reflexivity|].
      intros H1 H2. exfalso. revert D. unfold deleteUserHistory.
      cbn [urlSet up trips trip]. rewrite Hurl, H1. cbn [negb].
      change (query telegramID (trip R)) with (query telegramID R).
      rewrite Hq, H2. discriminate.
    + intros [= <- <- _ _]. exists None, more.
      split; [reflexivity|]. split; [reflexivity|].
      intros _ _. split; [reflexivity|].
      exact (deleteUserHistory_clears telegramID (trip R) R1 D).
  - unfold contextMessages. now rewrite last_last.
  - unfold contextMessages. rewrite map_app, map_map. reflexivity.
  - unfold contextMessages. rewrite map_app, map_map. reflexivity.
Qed.

Lemma history_assembly_witness :
  let cleaned (n : nat) :=
    cleanupMessageHistory 42
      (fst (snd (getUserMessages 42 (Sample.store n))))
      (fst (getUserMessages 42 (Sample.store n))) in
  users (fst (fst (cleaned 100%nat))) = users (Sample.store 100)
  /\ history 42 (fst (fst (cleaned 101%nat))) = [].
Proof.
  cbv zeta. split.
  - refine (proj1 (proj2 (proj1 (history_assembly Json.Unmarshal
                                   (Sample.env [0%Z] true true) 42 "hi"
                                   (Sample.store 100)) _))).
    vm_compute. reflexivity.
  - destruct (proj1 (proj2 (history_assembly Json.Unmarshal
                              (Sample.env [0%Z] true true) 42 "hi"
                              (Sample.store 101))))
      as (e & more & _ & _ & K).
    + vm_compute. reflexivity.
    + apply K; reflexivity.
Defined.

(** ** Runs of the handler on small streams *)

(** Three fragments and the sentinel, the second fragment under the
    interval and the third over it: one send, one edit, the final edit with
    the marker, and the save. *)
Example three_fragments :
  let E := Sample.env [0; Sample.ms 100; Sample.ms 700; Sample.ms 701]%Z
                      true true in
  let resp := Sample.response [Sample.event "Hel"; ""; Sample.event "lo ";
                               Sample.event "world"; Sample.sentinel] false in
  aggregate Json.Unmarshal E 42 "hi" resp (start [] [])
  = ({| fullResponse := "Hello world"; msg := Some 7%Z;
        lastUpdate := Sample.ms 701; firstChunk := false;
        reads := 4; edits := 2;
        calls := [Send "Hel" (Some 7%Z) (Some 0%Z);
                  Edit (Some 7%Z) "Hello world" true (Some (Sample.ms 701));
                  Edit (Some 7%Z) ("Hello world" ++ marker) true None;
                  SaveMessage 42 "hi" "Hello world" true];
        logs := [LogRawLine (Sample.event "Hel"); LogChunk "Hel";
                 LogRawLine "";
                 LogRawLine (Sample.event "lo "); LogChunk "lo ";
                 LogRawLine (Sample.event "world"); LogChunk "world";
                 LogRawLine Sample.sentinel] |}, None).
Proof. vm_compute. reflexivity. Qed.

(** No fragment at all and a status of 200: the apology is sent, nothing is
    saved. *)
Example no_content :
  calls (fst (aggregate Json.Unmarshal (Sample.env [0%Z] true true) 42 "hi"
                (Sample.response [""; Sample.broken; Sample.sentinel] false)
                (start [] [])))
  = [Reply sorryText true].
Proof. vm_compute. reflexivity. Qed.

(** A history of 101 messages: the deletion, then the request with the 101
    turns and the new one; the request fails, so that nothing is saved, and
    the store is as the deletion left it. *)
Example long_history :
  let out := OnText Json.Unmarshal (Sample.env [0%Z] true true) 42 "hi"
               (Sample.store 101) in
  calls (final out)
  = [DeleteUserHistory 42 None;
     Generate (contextMessages (map Sample.turn (seq 0 101)) "hi");
     Reply connectText true]
  /\ map Messages (users (remote out)) = [[]].
Proof. vm_compute. split; reflexivity. Qed.

(** Edits that all fail, on a clock advancing by 300 ms per reading: the
    stamps of the deliveries are 0, 900 ms and 1800 ms. *)
Example failing_edits :
  stamps (calls (varsOf (scan Json.Unmarshal
                           (Sample.steady (Sample.ms 300) true false)
                           [Sample.event "a"; Sample.event "b";
                            Sample.event "c"; Sample.event "d";
                            Sample.event "e"] (start [] []))))
  = [0; Sample.ms 900; Sample.ms 1800]%Z.
Proof. vm_compute. reflexivity. Qed.

(** ** Further properties of the streaming handler *)

Lemma showsPrefixOf_grows (full more : string) (c : Call) :
  showsPrefixOf full c -> showsPrefixOf (full ++ more) c.
Proof.
  unfold showsPrefixOf. destruct (textOf c) as [t|]; [|auto].
  intros [rest ->]. exists (rest ++ more). apply append_assoc.
Qed.

Lemma body_coherent (U : string -> option GeminiResponse) (E : Env)
  (line : string) (v : Vars) :
  coherent v ->
  match body U E line v with
  | Next v' => coherent v'
  | Return v' _ => sound v'
  end.
Proof.
  intros ((He & Hp & Hs) & Hf & Hm).
  destruct (body_cases U E line v) as [(printed & -> & _)|(chunk & _ & ->)].
  - unfold coherent, sound.
    destruct (logAll_vars printed (log (LogRawLine line) v))
      as (-> & -> & _ & -> & _ & _ & -> & _).
    cbn. auto.
  - set (w := log (LogChunk chunk) (log (LogRawLine line) v)).
    pose proof (deliver_fullResponse E chunk w) as Fr.
    change (fullResponse w) with (fullResponse v) in Fr.
    assert (Hp' : Forall (showsPrefixOf (fullResponse v ++ chunk)) (calls v)).
    { eapply Forall_impl; [|exact Hp].
      intros c. apply showsPrefixOf_grows. }
    destruct (firstChunk v) eqn:Fc.
    + pose proof (deliver_first E chunk w Fc) as D.
      specialize (Hf eq_refl). rewrite Hf in *. cbn in Fr, Hp'.
      destruct (sendResult E chunk) as [m|].
      * destruct D as (v' & Dv & C & Fc' & M & _).
        change (calls w) with (calls v) in C.
        rewrite Dv in *. cbn in Fr. unfold coherent, sound.
        rewrite Fr, C, Fc', M, filter_app, Hs. cbn.
        repeat split; try discriminate.
        -- apply Forall_app. split; [exact He | repeat constructor].
        -- apply Forall_app. split; [exact Hp'|].
           repeat constructor. exists "". now rewrite append_empty_r.
      * destruct D as (v' & Dv & C & _).
        change (calls w) with (calls v) in C.
        rewrite Dv in *. cbn in Fr. unfold sound.
        rewrite Fr, C, filter_app, Hs. cbn.
        repeat split.
        -- apply Forall_app. split; [exact He | repeat constructor].
        -- apply Forall_app. split; [exact Hp'|].
           repeat constructor. exists "". now rewrite append_empty_r.
    + destruct (deliver_later E chunk w Fc) as (v' & Dv & _ & Fc' & M & K).
      rewrite Dv in *. cbn in Fr. unfold coherent, sound.
      change (msg w) with (msg v) in *. change (calls w) with (calls v) in K.
      change (fullResponse w) with (fullResponse v) in K.
      rewrite Fr, Fc', M.
      destruct (_ <? _)%Z.
      * destruct K as (C & _). rewrite C, filter_app, Hs. cbn.
        specialize (Hm eq_refl).
        repeat split; try discriminate; try assumption.
        -- apply Forall_app. split; [exact He|].
           repeat constructor. destruct (msg v); [exact I | now apply Hm].
        -- apply Forall_app. split; [exact Hp'|].
           repeat constructor. exists "". now rewrite append_empty_r.
        -- intros _. exact Hm.
      * destruct K as (C & _). rewrite C.
        repeat split; try discriminate; auto.
Qed.

Lemma scan_coherent (U : string -> option GeminiResponse) (E : Env)
  (ls : list string) (v : Vars) :
  coherent v ->
  match scan U E ls v with
  | Next v' => coherent v'
  | Return v' _ => sound v'
  end.
Proof.
  intro H. apply scan_invariant; [|exact H].
  intros line w. apply body_coherent.
Qed.

Lemma start_coherent (cs : list Call) (lg : list LogMsg) :
  Forall (fun c => textOf c = None) cs ->
  filter isSaveMessage cs = [] ->
  coherent (start cs lg).
Proof.
  intros Ht Hs. unfold coherent, sound. cbn. repeat split; try discriminate.
  - eapply Forall_impl; [|exact Ht]. intros c Hc.
    destruct c; cbn in *; try exact I; discriminate.
  - eapply Forall_impl; [|exact Ht]. intros c Hc.
    unfold showsPrefixOf. now rewrite Hc.
  - exact Hs.
Qed.

(** The calls of the code after the loop, case by case. *)
Lemma finish_cases (E : Env) (telegramID : Z) (userMsg : string)
  (statusCode : Z) (v : Vars) :
  let out := finish E telegramID userMsg statusCode v in
  (fullResponse v <> ""
   /\ calls (fst out)
      = (calls v
           ++ [Edit (msg v) (fullResponse v ++ marker)
                    (editResult E (edits v) (fullResponse v ++ marker)) None;
               SaveMessage telegramID userMsg (fullResponse v)
                           (saveResult E)])%list
   /\ snd out = None)
  \/ (fullResponse v = "" /\ statusCode <> 200%Z
      /\ snd out = None
      /\ match msg v with
         | Some m =>
             calls (fst out)
             = (calls v ++ [Edit (Some m) errorText
                                 (editResult E (edits v) errorText) None])%list
         | None =>
             calls (fst out)
             = (calls v ++ [Reply errorText (replyResult E errorText)])%list
         end)
  \/ (fullResponse v = "" /\ statusCode = 200%Z
      /\ match msg v with
         | Some _ => calls (fst out) = calls v /\ snd out = None
         | None =>
             calls (fst out)
             = (calls v ++ [Reply sorryText (replyResult E sorryText)])%list
             /\ snd out = if replyResult E sorryText then None
                          else Some SendError
         end).
Proof.
  cbv zeta.
  destruct (string_dec (fullResponse v) "") as [He|Hne].
  - unfold finish. rewrite He. cbn [String.length Nat.ltb Nat.leb].
    destruct (Z.eqb_spec statusCode 200) as [Hs|Hs]; cbn [negb].
    + right; right. split; [reflexivity|]. split; [exact Hs|].
      destruct (msg v); cbn; auto.
    + right; left. split; [reflexivity|]. split; [exact Hs|].
      cbn. destruct (msg v); cbn.
      * destruct (editResult E _ _); cbn; auto.
      * destruct (replyResult E _); cbn; auto.
  - left. split; [exact Hne|]. now apply finish_nonempty.
Qed.

Lemma cleanup_quiet (telegramID : Z) (prev : list Message) (R : Mokky) :
  let cs := fst (snd (fst (cleanupMessageHistory telegramID prev R))) in
  Forall (fun c => textOf c = None) cs /\ filter isSaveMessage cs = [].
Proof.
  unfold cleanupMessageHistory.
  destruct (_ <? _)%nat; [|cbn; auto].
  destruct (deleteUserHistory telegramID R) as [R' [e|]]; cbn;
    split; try reflexivity; repeat constructor.
Qed.

Lemma aggregate_sound (U : string -> option GeminiResponse) (E : Env)
  (telegramID : Z) (userMsg : string) (resp : Response) (v0 : Vars) :
  coherent v0 ->
  let out := aggregate U E telegramID userMsg resp v0 in
  Forall editHasMessage (calls (fst out))
  /\ (filter isSaveMessage (calls (fst out)) = []
      \/ exists v,
          scan U E (lines resp) v0 = Next v
          /\ fullResponse v <> ""
          /\ filter isSaveMessage (calls (fst out))
             = [SaveMessage telegramID userMsg (fullResponse v) (saveResult E)]
          /\ snd out = None).
Proof.
  intros H0 out. subst out. unfold aggregate.
  pose proof (scan_coherent U E (lines resp) v0 H0) as S.
  destruct (scan U E (lines resp) v0) as [v|v e].
  - destruct S as ((He & _ & Hs) & Hf & Hm).
    destruct (finish_cases E telegramID userMsg (StatusCode resp) v)
      as [(Hne & C & Hr)|[(Hz & _ & Hr & C)|(Hz & _ & C)]].
    + rewrite C. split.
      * apply Forall_app. split; [exact He|].
        assert (Fc : firstChunk v = false).
        { destruct (firstChunk v); [now specialize (Hf eq_refl)|reflexivity]. }
        specialize (Hm Fc). repeat constructor.
        destruct (msg v); [exact I | now apply Hm].
      * right. exists v. rewrite filter_app, Hs. cbn. auto.
    + destruct (msg v); rewrite C; rewrite filter_app, Hs; cbn;
        (split; [apply Forall_app; split; [exact He | repeat constructor]
                | now left]).
    + destruct (msg v).
      * destruct C as [-> _]. auto.
      * destruct C as [-> _]. rewrite filter_app, Hs. cbn.
        split; [apply Forall_app; split; [exact He | repeat constructor]
               | now left].
  - destruct S as (He & _ & Hs). cbn. auto.
Qed.

Lemma createdBy_app (created : option TeleMessage) (cs more : list Call) :
  createdBy created (cs ++ more) = createdBy (createdBy created cs) more.
Proof. unfold createdBy. apply fold_left_app. Qed.

Lemma editsFollow_app (cs more : list Call) :
  forall created,
    editsFollow created (cs ++ more)
    <-> editsFollow created cs /\ editsFollow (createdBy created cs) more.
Proof.
  induction cs as [|c cs IH]; intro created; cbn [app editsFollow].
  - cbn. tauto.
  - rewrite IH. change (createdBy created (c :: cs))
      with (createdBy (createdBy created [c]) cs). tauto.
Qed.

(** Calls that show no text neither create nor edit a message. *)
Lemma textless_calls (cs : list Call) :
  Forall (fun c => textOf c = None) cs ->
  forall created,
    editsFollow created cs /\ createdBy created cs = created
    /\ filter isSend cs = [].
Proof.
  induction 1 as [|c cs Hc _ IH]; intro created; cbn; [auto|].
  destruct c; cbn in Hc; try discriminate;
    (destruct (IH created) as (A & B & C); repeat split; assumption).
Qed.

Lemma deliver_failed_msg (E : Env) (chunk : string) (v : Vars) :
  firstChunk v = true -> sendResult E chunk = None ->
  msg (varsOf (deliver E chunk v)) = msg v.
Proof. intros Fc Hs. unfold deliver. cbn. now rewrite Fc, Hs. Qed.

Lemma body_anchored (U : string -> option GeminiResponse) (E : Env)
  (line : string) (v : Vars) :
  coherent v -> anchored v -> anchored (varsOf (body U E line v)).
Proof.
  intros (_ & _ & Hm) (He & Hc).
  destruct (body_cases U E line v) as [(printed & -> & _)|(chunk & _ & ->)].
  - cbn. unfold anchored.
    destruct (logAll_vars printed (log (LogRawLine line) v))
      as (_ & -> & _ & _ & _ & _ & -> & _).
    cbn. auto.
  - set (w := log (LogChunk chunk) (log (LogRawLine line) v)).
    destruct (firstChunk v) eqn:Fc.
    + pose proof (deliver_first E chunk w Fc) as D.
      pose proof (deliver_failed_msg E chunk w Fc) as F.
      destruct (sendResult E chunk) as [m|].
      * destruct D as (v' & -> & C & _ & M & _). cbn. unfold anchored.
        change (calls w) with (calls v) in C.
        rewrite C, M, createdBy_app, Hc. split; [|reflexivity].
        apply editsFollow_app. split; [exact He|]. cbn. auto.
      * destruct D as (v' & Dv & C & _). rewrite Dv in *. cbn in *.
        unfold anchored. rewrite C, (F eq_refl), createdBy_app, Hc.
        split; [|reflexivity].
        apply editsFollow_app. split; [exact He|]. cbn. auto.
    + destruct (deliver_later E chunk w Fc) as (v' & -> & _ & _ & M & K).
      cbn. unfold anchored.
      change (msg w) with (msg v) in *. change (calls w) with (calls v) in K.
      rewrite M. destruct (_ <? _)%Z.
      * destruct K as (C & _). rewrite C, createdBy_app, Hc.
        split; [|reflexivity].
        apply editsFollow_app. split; [exact He|]. rewrite Hc. cbn.
        specialize (Hm eq_refl). auto.
      * destruct K as (C & _). rewrite C. auto.
Qed.

Lemma scan_anchored (U : string -> option GeminiResponse) (E : Env)
  (ls : list string) (v : Vars) :
  coherent v -> anchored v ->
  match scan U E ls v with
  | Next v' => coherent v' /\ anchored v'
  | Return v' _ => anchored v'
  end.
Proof.
  intros Hc Ha.
  apply (scan_invariant U E (fun w => coherent w /\ anchored w) anchored);
    [|auto].
  intros line w [Wc Wa].
  pose proof (body_coherent U E line w Wc) as B.
  pose proof (body_anchored U E line w Wc Wa) as A.
  destruct (body U E line w); cbn in A; auto.
Qed.

Lemma aggregate_anchored (U : string -> option GeminiResponse) (E : Env)
  (telegramID : Z) (userMsg : string) (resp : Response) (v0 : Vars) :
  coherent v0 -> anchored v0 -> sends v0 = O ->
  let cs := calls (fst (aggregate U E telegramID userMsg resp v0)) in
  editsFollow None cs /\ (List.length (filter isSend cs) <= 1)%nat.
Proof.
  intros Hc Ha H0 cs. subst cs. unfold aggregate.
  pose proof (scan_anchored U E (lines resp) v0 Hc Ha) as S.
  pose proof (one_send U E (lines resp) v0 H0) as O.
  destruct (scan U E (lines resp) v0) as [v|v e]; cbn in O.
  - destruct S as [(_ & Hf & Hm) (He & Hcr)]. unfold sends in O.
    destruct (finish_cases E telegramID userMsg (StatusCode resp) v)
      as [(Hne & C & _)|[(_ & _ & _ & C)|(_ & _ & C)]].
    + rewrite C, filter_app. cbn. rewrite app_nil_r. split; [|exact O].
      apply editsFollow_app. split; [exact He|]. rewrite Hcr. cbn.
      assert (Fc : firstChunk v = false).
      { destruct (firstChunk v); [now specialize (Hf eq_refl)|reflexivity]. }
      specialize (Hm Fc). auto.
    + destruct (msg v) as [m|] eqn:M; rewrite C, filter_app; cbn;
        rewrite app_nil_r; (split; [|exact O]);
        apply editsFollow_app; (split; [exact He|]); rewrite Hcr; cbn.
      * repeat split; (discriminate || reflexivity || auto).
      * auto.
    + destruct (msg v) as [m|] eqn:M.
      * destruct C as [-> _]. auto.
      * destruct C as [-> _]. rewrite filter_app. cbn. rewrite app_nil_r.
        split; [|exact O].
        apply editsFollow_app. split; [exact He|]. cbn. auto.
  - cbn. destruct S as [He _]. auto.
Qed.

(** X1. In no run of the text handler is [b.Edit] called on a nil message:
    every edit, periodic, final or of the error text, is made on the message
    that the send of the first chunk has returned, a send that precedes the
    edit among the calls and is the only send of the run that can go
    through, since a run makes one send at most. *)
Theorem edits_target_a_message :
  forall (U : string -> option GeminiResponse) (E : Env) (telegramID : Z)
         (userMsg : string) (R : Mokky),
    let cs := calls (final (OnText U E telegramID userMsg R)) in
    editsFollow None cs /\ (List.length (filter isSend cs) <= 1)%nat.
Proof.
  intros U E telegramID userMsg R. unfold OnText.
  destruct (getUserMessages telegramID R) as [R0 [prev err]].
  pose proof (cleanup_quiet telegramID prev R0) as Q.
  destruct (cleanupMessageHistory telegramID prev R0) as [[R' [cs ls]] e].
  cbn in Q. destruct Q as [Qt Qs].
  set (cs' := (cs ++ [Generate (contextMessages prev userMsg)])%list).
  assert (Qt' : Forall (fun c => textOf c = None) cs')
    by (apply Forall_app; split; [exact Qt | repeat constructor]).
  assert (Qs' : filter isSaveMessage cs' = [])
    by (unfold cs'; now rewrite filter_app, Qs).
  destruct (textless_calls cs' Qt' None) as (Te & Tc & Ts).
  destruct (doResult E _) as [resp|].
  - match goal with
    | |- context [aggregate U E telegramID userMsg resp ?s] =>
        pose proof (aggregate_anchored U E telegramID userMsg resp s
                      (start_coherent cs' _ Qt' Qs')) as A;
        destruct (aggregate U E telegramID userMsg resp s) as [v r]
    end.
    cbn in *. apply A.
    + split; [exact Te | exact Tc].
    + unfold sends. cbn. now rewrite Ts.
  - cbn. rewrite filter_app, Ts. cbn. split; [|lia].
    apply editsFollow_app. split; [exact Te|]. cbn. auto.
Qed.

(** X2. Every text that the scan loop shows to the user, by the send of
    the first chunk or by an edit, is a prefix of the text accumulated when
    the loop stops. *)
Theorem shown_texts_are_prefixes :
  forall (U : string -> option GeminiResponse) (E : Env) (ls : list string)
         (lg : list LogMsg),
    let v := varsOf (scan U E ls (start [] lg)) in
    Forall (showsPrefixOf (fullResponse v)) (calls v).
Proof.
  intros U E ls lg v. subst v.
  pose proof (scan_coherent U E ls (start [] lg)
                (start_coherent [] lg (Forall_nil _) eq_refl)) as S.
  destruct (scan U E ls (start [] lg)) as [v|v e]; cbn.
  - apply S.
  - apply S.
Qed.

(** X3. A run of the text handler calls [saveMessage] at most once, and
    only when the request went through, the loop ran to its end and the
    answer is not empty: it then saves the sender's text with the whole
    answer, and the handler returns nil. *)
Theorem answer_is_saved_at_most_once :
  forall (U : string -> option GeminiResponse) (E : Env) (telegramID : Z)
         (userMsg : string) (R : Mokky),
    let out := OnText U E telegramID userMsg R in
    filter isSaveMessage (calls (final out)) = []
    \/ exists resp,
        doResult E (contextMessages
                      (fst (snd (getUserMessages telegramID R))) userMsg)
        = Some resp
        /\ cat (fragments U (lines resp)) <> ""
        /\ filter isSaveMessage (calls (final out))
           = [SaveMessage telegramID userMsg (cat (fragments U (lines resp)))
                          (saveResult E)]
        /\ result out = None.
Proof.
  intros U E telegramID userMsg R. unfold OnText.
  destruct (getUserMessages telegramID R) as [R0 [prev err]].
  pose proof (cleanup_quiet telegramID prev R0) as Q.
  destruct (cleanupMessageHistory telegramID prev R0) as [[R' [cs ls]] e].
  cbn in Q. destruct Q as [Qt Qs].
  set (cs' := (cs ++ [Generate (contextMessages prev userMsg)])%list).
  assert (Qt' : Forall (fun c => textOf c = None) cs')
    by (apply Forall_app; split; [exact Qt | repeat constructor]).
  assert (Qs' : filter isSaveMessage cs' = [])
    by (unfold cs'; now rewrite filter_app, Qs).
  cbn [fst snd].
  destruct (doResult E _) as [resp|] eqn:D.
  - match goal with
    | |- context [aggregate U E telegramID userMsg resp ?s] =>
        pose proof (aggregate_sound U E telegramID userMsg resp s
                      (start_coherent cs' _ Qt' Qs')) as A;
        pose proof (scan_fullResponse U E (lines resp) s) as F;
        destruct (aggregate U E telegramID userMsg resp s) as [v r]
    end.
    cbn in *. destruct A as [_ [A|(w & Sw & Hne & Hs & Hr)]].
    + now left.
    + right. exists resp. specialize (F w Sw). cbn in F.
      rewrite <- F. auto.
  - left. cbn. now rewrite filter_app, Qs'.
Qed.

Lemma scan_no_fragment (U : string -> option GeminiResponse) (E : Env)
  (ls : list string) :
  fragments U ls = [] ->
  forall v0, exists v,
    scan U E ls v0 = Next v
    /\ calls v = calls v0 /\ msg v = msg v0
    /\ fullResponse v = fullResponse v0 /\ edits v = edits v0.
Proof.
  induction ls as [|line rest IH]; intros H v0; cbn in *.
  - exists v0. auto.
  - destruct (fragment U line) as [chunk|] eqn:F; [discriminate|].
    destruct (body_skip U E line v0 F) as (printed & -> & _).
    destruct (IH H (logAll printed (log (LogRawLine line) v0)))
      as (v & -> & C & M & Fr & Ed).
    exists v. split; [reflexivity|].
    destruct (logAll_vars printed (log (LogRawLine line) v0))
      as (A1 & A2 & _ & _ & _ & A6 & A7 & _).
    rewrite C, M, Fr, Ed, A1, A2, A6, A7. cbn. auto.
Qed.

(** X4. When no line of the stream yields a fragment (blank lines,
    sentinel, malformed payloads, responses without candidate or part), the
    handler makes exactly one call after the request: it replies with the
    apology when the status is 200, returning the error of that reply if it
    fails, and with the error text otherwise; nothing is sent as an answer,
    edited or saved. *)
Theorem no_fragment_no_answer :
  forall (U : string -> option GeminiResponse) (E : Env) (telegramID : Z)
         (userMsg : string) (resp : Response) (cs : list Call)
         (lg : list LogMsg),
    fragments U (lines resp) = [] ->
    let out := aggregate U E telegramID userMsg resp (start cs lg) in
    if (StatusCode resp =? 200)%Z then
      calls (fst out) = (cs ++ [Reply sorryText (replyResult E sorryText)])%list
      /\ snd out = (if replyResult E sorryText then None else Some SendError)
    else
      calls (fst out) = (cs ++ [Reply errorText (replyResult E errorText)])%list
      /\ snd out = None.
Proof.
  intros U E telegramID userMsg resp cs lg H out. subst out.
  unfold aggregate.
  destruct (scan_no_fragment U E (lines resp) H (start cs lg))
    as (v & -> & C & M & Fr & _).
  cbn in C, M, Fr. cbv beta iota.
  destruct (finish_cases E telegramID userMsg (StatusCode resp) v)
    as [(Hne & _)|[(_ & Hs & Hr & K)|(_ & Hs & K)]].
  - contradiction.
  - apply Z.eqb_neq in Hs. rewrite Hs. rewrite M in K.
    cbv zeta in K, Hr. split; [now rewrite K, C | exact Hr].
  - rewrite M in K. cbv zeta in K. destruct K as [K Hr].
    rewrite Hs in *. rewrite Z.eqb_refl.
    split; [now rewrite K, C | exact Hr].
Qed.

Lemma no_fragment_no_answer_witness :
  calls (fst (aggregate Json.Unmarshal (Sample.env [0%Z] true true) 42 "hi"
                (Sample.response [""; Sample.broken; Sample.sentinel;
                                  "event: ping"] false)
                (start [] [])))
  = [Reply sorryText true].
Proof.
  exact (proj1 (no_fragment_no_answer Json.Unmarshal
                  (Sample.env [0%Z] true true) 42 "hi"
                  (Sample.response [""; Sample.broken; Sample.sentinel;
                                    "event: ping"] false)
                  [] [] eq_refl)).
Defined.

Lemma spaced_span (d : Z) (rest : list Z) :
  forall t0 d0,
    spaced d (t0 :: rest) ->
    (Z.of_nat (List.length rest) * d <= last (t0 :: rest) d0 - t0)%Z.
Proof.
  induction rest as [|b r IH]; intros t0 d0 H.
  - cbn. lia.
  - destruct H as [Hd Hs].
    specialize (IH b d0 Hs).
    change (last (t0 :: b :: r) d0) with (last (b :: r) d0).
    cbn [List.length]. lia.
Qed.

Lemma scan_wellSpaced (U : string -> option GeminiResponse) (E : Env)
  (ls : list string) (lg : list LogMsg) :
  monotone (clock E) ->
  wellSpaced (varsOf (scan U E ls (start [] lg))).
Proof.
  intro Hm.
  assert (S : match scan U E ls (start [] lg) with
              | Next v' => throttled v'
              | Return v' _ => wellSpaced v'
              end).
  { apply scan_invariant.
    - intros line v0. now apply body_throttled.
    - unfold throttled, wellSpaced. cbn. auto. }
  destruct (scan U E ls (start [] lg)); cbn; [apply S | exact S].
Qed.

(** X5. When the clock does not go backwards, the scan loop is rate
    limited: the deliveries it makes between the first and the last are at
    most one per 500 ms, that is, [n] stamped deliveries span at least
    [(n - 1) * 500] ms. *)
Theorem deliveries_are_rate_limited :
  forall (U : string -> option GeminiResponse) (E : Env) (ls : list string)
         (lg : list LogMsg),
    monotone (clock E) ->
    let ts := stamps (calls (varsOf (scan U E ls (start [] lg)))) in
    ((Z.of_nat (List.length ts) - 1) * (500 * 1000000)
     <= last ts 0 - hd 0 ts)%Z.
Proof.
  intros U E ls lg Hm ts.
  destruct (scan_wellSpaced U E ls lg Hm) as [Hs _]. fold ts in Hs.
  destruct ts as [|t0 rest] eqn:T.
  - cbn. lia.
  - pose proof (spaced_span _ rest t0 0%Z Hs) as B.
    unfold updateInterval in B.
    cbn [List.length hd]. lia.
Qed.

Lemma deliveries_are_rate_limited_witness :
  let ts := stamps (calls (varsOf (scan Json.Unmarshal
                                     (Sample.steady (Sample.ms 300) true false)
                                     [Sample.event "a"; Sample.event "b";
                                      Sample.event "c"; Sample.event "d";
                                      Sample.event "e"] (start [] [])))) in
  ((Z.of_nat (List.length ts) - 1) * (500 * 1000000) <= last ts 0 - hd 0 ts)%Z.
Proof.
  apply (deliveries_are_rate_limited Json.Unmarshal
           (Sample.steady (Sample.ms 300) true false)).
  intros i j H. cbn. unfold Sample.ms. lia.
Defined.

Lemma TrimLeft_allIn (set ws s : string) :
  allIn set ws = true ->
  Strings.TrimLeft (ws ++ s) set = Strings.TrimLeft s set.
Proof.
  induction ws as [|c ws IH]; cbn; [reflexivity|].
  intro H. apply andb_true_iff in H. destruct H as [Hc Hw].
  rewrite Hc. now apply IH.
Qed.

Lemma padded_is_not_sentinel (ws payload : string) :
  allIn cutset ws = true -> ws <> "" ->
  String.eqb (ws ++ payload) "[DONE]" = false.
Proof.
  destruct ws as [|c ws]; [contradiction|].
  cbn [allIn]. intros H _. apply andb_true_iff in H. destruct H as [Hc _].
  apply String.eqb_neq. cbn. intros [= -> _]. discriminate.
Qed.

(** X6. Bytes of the cutset (space, tab, CR, LF, NUL, ESC) between the
    prefix and the payload are ignored by the decoder: the line decodes as
    the line without them.  The sentinel is the exception: with such bytes
    before it, [[DONE]] is not taken as the sentinel but handed to the JSON
    decoder like any payload. *)
Theorem leading_whitespace_is_ignored :
  forall (U : string -> option GeminiResponse) (ws payload : string),
    allIn cutset ws = true ->
    (payload <> "[DONE]" ->
     parseSSEResponse U ("data: " ++ ws ++ payload)
     = parseSSEResponse U ("data: " ++ payload))
    /\ (ws <> "" ->
        parseSSEResponse U ("data: " ++ ws ++ "[DONE]")
        = match U "[DONE]" with
          | None => ([LogRawData "[DONE]"], (None, Some UnmarshalError))
          | Some resp => ([], (Some resp, None))
          end).
Proof.
  intros U ws payload Hw. split.
  - intro Hp. unfold parseSSEResponse.
    rewrite !HasPrefix_data, !TrimPrefix_data. cbn [negb].
    apply String.eqb_neq in Hp. rewrite Hp.
    destruct ws as [|c ws'] eqn:W.
    + cbn. now rewrite Hp.
    + rewrite <- W in *.
      rewrite (padded_is_not_sentinel ws payload Hw)
        by (rewrite W; discriminate).
      now rewrite TrimLeft_allIn.
  - intro Hne. unfold parseSSEResponse.
    rewrite HasPrefix_data, TrimPrefix_data. cbn [negb].
    rewrite (padded_is_not_sentinel ws "[DONE]" Hw Hne).
    rewrite TrimLeft_allIn by exact Hw.
    change (Strings.TrimLeft "[DONE]" cutset) with "[DONE]".
    destruct (U "[DONE]"); reflexivity.
Qed.

Lemma leading_whitespace_is_ignored_witness :
  parseSSEResponse Json.Unmarshal
    ("data: " ++ String "009"%char (String "027"%char " ")
              ++ Json.write_GeminiResponse {| Candidates := [] |})
  = ([], (Some {| Candidates := [] |}, None))
  /\ parseSSEResponse Json.Unmarshal "data:  [DONE]"
     = ([LogRawData "[DONE]"], (None, Some UnmarshalError)).
Proof.
  destruct (leading_whitespace_is_ignored Json.Unmarshal
              (String "009"%char (String "027"%char " "))
              (Json.write_GeminiResponse {| Candidates := [] |}) eq_refl)
    as [A _].
  destruct (leading_whitespace_is_ignored Json.Unmarshal " " "" eq_refl)
    as [_ B].
  split.
  - rewrite A; [reflexivity | discriminate].
  - exact (B ltac:(discriminate)).
Defined.

(** X7. The scan loop makes at most one call to the bot per fragment it
    receives: the calls it adds are no more than the fragments of the lines
    it was given. *)
Theorem one_call_per_fragment_at_most :
  forall (U : string -> option GeminiResponse) (E : Env) (ls : list string)
         (v : Vars),
    (List.length (calls (varsOf (scan U E ls v)))
     <= List.length (calls v) + List.length (fragments U ls))%nat.
Proof.
  intros U E ls. induction ls as [|line rest IH]; intro v; cbn.
  - lia.
  - destruct (fragment U line) as [chunk|] eqn:F.
    + rewrite (body_chunk U E _ _ v F).
      set (w := log (LogChunk chunk) (log (LogRawLine line) v)).
      assert (D : match deliver E chunk w with
                  | Next v' | Return v' _ =>
                      (List.length (calls v') <= S (List.length (calls v)))%nat
                  end).
      { destruct (firstChunk w) eqn:Fc.
        - pose proof (deliver_first E chunk w Fc) as D.
          destruct (sendResult E chunk);
            destruct D as (v' & -> & C & _); rewrite C, length_app; cbn; lia.
        - destruct (deliver_later E chunk w Fc) as (v' & -> & _ & _ & _ & K).
          destruct (_ <? _)%Z; destruct K as (C & _); rewrite C;
            rewrite ?length_app; cbn; lia. }
      destruct (deliver E chunk w) as [v'|v' e]; cbn.
      * specialize (IH v'). lia.
      * lia.
    + destruct (body_skip U E line v F) as (printed & -> & _).
      specialize (IH (logAll printed (log (LogRawLine line) v))).
      destruct (logAll_vars printed (log (LogRawLine line) v))
        as (_ & _ & _ & _ & _ & _ & C & _).
      rewrite C in IH. cbn in IH. exact IH.
Qed.

(** ** Further properties of the history store *)

(** What a successful deletion did. *)
Lemma delete_success (telegramID : Z) (R R' : Mokky) :
  deleteUserHistory telegramID R = (R', None) ->
  exists u q,
    query telegramID R = u :: q
    /\ urlSet R = true
    /\ R' = patch (ID u)
              {| ID := ID u; TelegramID := telegramID;
                 Username := Username u; Messages := [] |}
              (trip (trip R)).
Proof.
  unfold deleteUserHistory.
  destruct (urlSet R); cbn [negb]; [|discriminate].
  destruct (negb (up R (trips R))); [discriminate|].
  destruct (query telegramID R) as [|u q]; [discriminate|].
  destruct (negb _); [discriminate|].
  intros [= <-]. exists u, q. auto.
Qed.

Lemma query_In (telegramID : Z) (R : Mokky) (u : UserMessages)
  (q : list UserMessages) :
  query telegramID R = u :: q ->
  In u (users R) /\ TelegramID u = telegramID.
Proof.
  intro H. assert (I : In u (query telegramID R)) by (rewrite H; now left).
  unfold query in I. apply filter_In in I. destruct I as [I T].
  split; [exact I|]. unfold ofUser in T. now apply Z.eqb_eq.
Qed.

Lemma NoDup_map_inj {A B : Type} (f : A -> B) (l : list A) (a b : A) :
  NoDup (map f l) -> In a l -> In b l -> f a = f b -> a = b.
Proof.
  induction l as [|x l IH]; cbn; intros N Ia Ib E; [contradiction|].
  inversion N as [|? ? Nx Nl]; subst.
  destruct Ia as [->|Ia], Ib as [->|Ib].
  - reflexivity.
  - exfalso. apply Nx. rewrite E. now apply in_map.
  - exfalso. apply Nx. rewrite <- E. now apply in_map.
  - now apply IH.
Qed.

(** Emptying the records of id [i] does not change what the first record
    of another user holds. *)
Lemma blank_keeps_others (other i : Z) (l : list UserMessages) :
  (forall r, In r l -> ID r = i -> TelegramID r <> other) ->
  match filter (ofUser other)
               (map (fun r => if (ID r =? i)%Z then blank r else r) l) with
  | u :: _ => Messages u
  | [] => []
  end
  = match filter (ofUser other) l with
    | u :: _ => Messages u
    | [] => []
    end.
Proof.
  induction l as [|r l IH]; intro H; [reflexivity|].
  cbn [map filter].
  assert (Hg : ofUser other (if (ID r =? i)%Z then blank r else r)
               = ofUser other r)
    by now destruct (ID r =? i)%Z.
  rewrite Hg. destruct (ofUser other r) eqn:Or.
  - destruct (Z.eqb_spec (ID r) i) as [E|_]; [|reflexivity].
    exfalso. apply (H r (or_introl eq_refl) E).
    unfold ofUser in Or. now apply Z.eqb_eq in Or.
  - apply IH. intros r' I'. apply H. now right.
Qed.

(** X9. When the records of the store have distinct ids, a successful
    deletion keeps every record, with its id, its user and its username:
    it empties the messages of the first record of the user and leaves the
    history of every other user as it was. *)
Theorem deletion_spares_the_others :
  forall (telegramID : Z) (R R' : Mokky),
    NoDup (map ID (users R)) ->
    deleteUserHistory telegramID R = (R', None) ->
    map ID (users R') = map ID (users R)
    /\ map TelegramID (users R') = map TelegramID (users R)
    /\ map Username (users R') = map Username (users R)
    /\ history telegramID R' = []
    /\ forall other, other <> telegramID ->
                     history other R' = history other R.
Proof.
  intros telegramID R R' N D.
  pose proof (deleteUserHistory_clears telegramID R R' D) as Hc.
  destruct (delete_success telegramID R R' D) as (u & q & Q & _ & ->).
  destruct (query_In telegramID R u q Q) as [Iu Tu].
  set (g := fun r => if (ID r =? ID u)%Z then blank r else r).
  assert (G : users (patch (ID u)
                       {| ID := ID u; TelegramID := telegramID;
                          Username := Username u; Messages := [] |}
                       (trip (trip R)))
              = map g (users R)).
  { cbn. apply map_ext_in. intros r Ir. unfold g.
    destruct (Z.eqb_spec (ID r) (ID u)) as [E|_]; [|reflexivity].
    rewrite (NoDup_map_inj ID (users R) r u N Ir Iu E).
    unfold blank. now rewrite Tu. }
  split; [|split; [|split; [|split]]].
  - rewrite G, map_map. apply map_ext. intro r. unfold g.
    now destruct (ID r =? ID u)%Z.
  - rewrite G, map_map. apply map_ext. intro r. unfold g.
    now destruct (ID r =? ID u)%Z.
  - rewrite G, map_map. apply map_ext. intro r. unfold g.
    now destruct (ID r =? ID u)%Z.
  - exact Hc.
  - intros other Ho. unfold history, query. rewrite G.
    apply blank_keeps_others. intros r Ir E.
    rewrite (NoDup_map_inj ID (users R) r u N Ir Iu E). congruence.
Qed.

Lemma deletion_spares_the_others_witness :
  let R' := fst (deleteUserHistory 42 sharedStore) in
  history 42 R' = [] /\ history 43 R' = history 43 sharedStore.
Proof.
  cbv zeta.
  destruct (deletion_spares_the_others 42 sharedStore
              (fst (deleteUserHistory 42 sharedStore)))
    as (_ & _ & _ & A & B).
  - cbn. repeat constructor; cbn; intuition discriminate.
  - reflexivity.
  - split; [exact A | apply B; discriminate].
Defined.

(** After the patch of the deletion, the first record of the user is the
    body of the patch. *)
Lemma patched_first_body (telegramID id : Z) (body : UserMessages)
  (l : list UserMessages) :
  TelegramID body = telegramID ->
  forall u q,
    filter (ofUser telegramID) l = u :: q ->
    ID u = id ->
    exists q',
      filter (ofUser telegramID)
             (map (fun r => if (ID r =? id)%Z then body else r) l)
      = body :: q'.
Proof.
  intros Ht. induction l as [|r l IH]; intros u q Hf Hid; cbn in *.
  - discriminate.
  - assert (Hb : ofUser telegramID body = true)
      by (unfold ofUser; now apply Z.eqb_eq).
    destruct (ofUser telegramID r) eqn:Hr.
    + injection Hf as -> _. rewrite Hid, Z.eqb_refl. rewrite Hb. eauto.
    + destruct (ID r =? id)%Z.
      * rewrite Hb. eauto.
      * rewrite Hr. now apply (IH u q).
Qed.

Lemma patch_twice (id : Z) (body : UserMessages) (l : list UserMessages) :
  ID body = id ->
  map (fun r => if (ID r =? id)%Z then body else r)
      (map (fun r => if (ID r =? id)%Z then body else r) l)
  = map (fun r => if (ID r =? id)%Z then body else r) l.
Proof.
  intro Hb. rewrite map_map. apply map_ext. intro r.
  destruct (Z.eqb_spec (ID r) id) as [E|N].
  - now rewrite Hb, Z.eqb_refl.
  - apply Z.eqb_neq in N. now rewrite N.
Qed.

(** Reading the history, when the store answers. *)
Lemma getUserMessages_history (telegramID : Z) (R : Mokky) :
  urlSet R = true -> up R (trips R) = true ->
  getUserMessages telegramID R = (trip R, (history telegramID R, None)).
Proof.
  intros Hu Hup. unfold getUserMessages, history. rewrite Hu, Hup. cbn.
  now destruct (query telegramID R).
Qed.

(** X10. After a [/history] command that succeeded, the user is told that
    the history has been cleared, and the next text message of that user,
    if the store answers, is sent to the model with no prior turn: the
    context of the request is the new user turn alone. *)
Theorem history_command_then_text :
  forall (U : string -> option GeminiResponse) (E E' : Env) (telegramID : Z)
         (userMsg : string) (R : Mokky),
    let c := OnHistory E telegramID R in
    logged c = None ->
    up (store c) (trips (store c)) = true ->
    said c = Reply clearedText (replyResult E clearedText)
    /\ exists more,
        calls (final (OnText U E' telegramID userMsg (store c)))
        = Generate [{| Role := "user"; Parts := [{| Text := userMsg |}] |}]
            :: more.
Proof.
  intros U E E' telegramID userMsg R c. subst c. unfold OnHistory.
  destruct (deleteUserHistory telegramID R) as [R' [e|]] eqn:D; cbn;
    [discriminate|].
  intros _ Hup. split; [reflexivity|].
  pose proof (deleteUserHistory_clears telegramID R R' D) as Hc.
  destruct (delete_success telegramID R R' D) as (u & q & _ & Hu & HR).
  assert (Hu' : urlSet R' = true) by (rewrite HR; exact Hu).
  pose proof (getUserMessages_history telegramID R' Hu' Hup) as G.
  rewrite Hc in G.
  destruct (OnText_shape U E' telegramID userMsg R' _ _ _ _ _ _ _ G
              (cleanup_small telegramID [] (trip R') (Nat.le_0_l _)))
    as (_ & more & Hm).
  exists more. exact Hm.
Qed.

Lemma history_command_then_text_witness :
  exists more,
    calls (final (OnText Json.Unmarshal (Sample.env [0%Z] true true) 42 "hi"
                    (store (OnHistory (Sample.env [0%Z] true true) 42
                              (Sample.store 5)))))
    = Generate [{| Role := "user"; Parts := [{| Text := "hi" |}] |}] :: more.
Proof.
  exact (proj2 (history_command_then_text Json.Unmarshal
                  (Sample.env [0%Z] true true) (Sample.env [0%Z] true true)
                  42 "hi" (Sample.store 5) eq_refl eq_refl)).
Defined.

(** X11. Deleting the history twice is harmless: after a deletion that
    succeeded, a second one, if its two round trips succeed, succeeds too
    and leaves the records as the first left them. *)
Theorem deletion_is_idempotent :
  forall (telegramID : Z) (R R1 : Mokky),
    deleteUserHistory telegramID R = (R1, None) ->
    up R1 (trips R1) = true ->
    up R1 (S (trips R1)) = true ->
    exists R2,
      deleteUserHistory telegramID R1 = (R2, None)
      /\ users R2 = users R1.
Proof.
  intros telegramID R R1 D H1 H2.
  destruct (delete_success telegramID R R1 D) as (u & q & Q & Hu & HR).
  set (b := {| ID := ID u; TelegramID := telegramID;
               Username := Username u; Messages := [] |}) in *.
  destruct (patched_first_body telegramID (ID u) b (users R) eq_refl u q Q
              eq_refl) as [q' Q'].
  assert (Q1 : query telegramID R1 = b :: q') by (rewrite HR; exact Q').
  assert (Hu1 : urlSet R1 = true) by (rewrite HR; exact Hu).
  unfold deleteUserHistory. rewrite Hu1, H1, Q1. cbn [negb trip trips up].
  rewrite H2. cbn [negb].
  eexists. split; [reflexivity|].
  cbn. rewrite HR. cbn. apply patch_twice. reflexivity.
Qed.

Lemma deletion_is_idempotent_witness :
  exists R2,
    deleteUserHistory 42 (fst (deleteUserHistory 42 sharedStore)) = (R2, None)
    /\ users R2 = users (fst (deleteUserHistory 42 sharedStore)).
Proof.
  apply (deletion_is_idempotent 42 sharedStore); reflexivity.
Defined.

(** X12. When the history cannot be read (no store address, or a round
    trip that fails), the handler goes on without it: it has no prior turn,
    the clean-up makes no call and returns the store it was given, whose
    records are those of the store before the read, so that nothing is
    deleted before the request, and the first call is the request to the
    model, whose context is the new user turn alone. *)
Theorem unreadable_history_is_no_history :
  forall (U : string -> option GeminiResponse) (E : Env) (telegramID : Z)
         (userMsg : string) (R : Mokky),
    snd (snd (getUserMessages telegramID R)) <> None ->
    let prev := fst (snd (getUserMessages telegramID R)) in
    let R0 := fst (getUserMessages telegramID R) in
    prev = []
    /\ users R0 = users R
    /\ cleanupMessageHistory telegramID prev R0 = (R0, ([], []), None)
    /\ exists more,
        calls (final (OnText U E telegramID userMsg R))
        = Generate [{| Role := "user"; Parts := [{| Text := userMsg |}] |}]
            :: more.
Proof.
  intros U E telegramID userMsg R He prev R0.
  destruct (getUserMessages telegramID R) as [R0' [prev0 err]] eqn:G.
  cbn in prev, R0. subst prev R0.
  assert (P : prev0 = [] /\ users R0' = users R).
  { revert G He. unfold getUserMessages.
    destruct (negb (urlSet R)); [now intros [= <- <- _]|].
    destruct (negb (up R (trips R))); [now intros [= <- <- _]|].
    destruct (query telegramID R); intros [= <- <- <-]; cbn;
      intro C; now contradiction C. }
  destruct P as [-> HR].
  pose proof (cleanup_small telegramID [] R0' (Nat.le_0_l _)) as C.
  destruct (OnText_shape U E telegramID userMsg R _ _ _ _ _ _ _ G C)
    as (_ & more & Hm).
  split; [reflexivity|]. split; [exact HR|]. split; [exact C|].
  exists more. exact Hm.
Qed.

Lemma unreadable_history_is_no_history_witness :
  let down := {| urlSet := true; up := fun _ => false; trips := O;
                 users := users (Sample.store 101) |} in
  exists more,
    calls (final (OnText Json.Unmarshal (Sample.env [0%Z] true true) 42 "hi"
                    down))
    = Generate [{| Role := "user"; Parts := [{| Text := "hi" |}] |}] :: more.
Proof.
  cbv zeta.
  refine (proj2 (proj2 (proj2 (unreadable_history_is_no_history
                                 Json.Unmarshal (Sample.env [0%Z] true true)
                                 42 "hi" _ _)))).
  cbn. discriminate.
Defined.

(** ** Saving an exchange *)

Lemma usernameOf_nonempty (sender : User) : usernameOf sender <> "".
Proof.
  unfold usernameOf.
  destruct (String.eqb_spec (UserUsername sender) "") as [_|N]; cbn [negb];
    [|exact N].
  destruct (String.eqb_spec (FirstName sender) "") as [_|N]; cbn [negb];
    [discriminate | exact N].
Qed.

(** X13. [saveMessage] writes to the store only after it has read the
    user's record: it issues a write exactly when the store address is set
    and the lookup succeeds.  The write carries the history it read followed
    by exactly two turns, the user's text then the model's text, under the
    user's id and a username that is never empty; it patches the first
    record of the user when there is one and posts a new record
    otherwise. *)
Theorem saveMessage_appends_two_turns :
  forall (telegramID : Z) (userMsg aiMsg : string) (sender : User)
         (R : Mokky),
    let out := saveMessage telegramID userMsg aiMsg sender R in
    (snd (fst out) <> None <-> urlSet R = true /\ up R (trips R) = true)
    /\ forall req,
        snd (fst out) = Some req ->
        Messages (bodyOf req)
        = (history telegramID R
             ++ [{| MessageRole := "user"; MessageText := userMsg |};
                 {| MessageRole := "model"; MessageText := aiMsg |}])%list
        /\ TelegramID (bodyOf req) = telegramID
        /\ Username (bodyOf req) = usernameOf sender
        /\ Username (bodyOf req) <> ""
        /\ match req with
           | PATCH id _ => exists u q, query telegramID R = u :: q /\ id = ID u
           | POST _ => query telegramID R = []
           end.
Proof.
  intros telegramID userMsg aiMsg sender R out. subst out.
  unfold saveMessage, history.
  destruct (urlSet R); cbn [negb].
  2:{ cbn. split; [split; [intro C; now contradiction C | intros [C _];
                                                          discriminate]|].
      discriminate. }
  destruct (up R (trips R)); cbn [negb].
  2:{ cbn. split; [split; [intro C; now contradiction C | intros [_ C];
                                                          discriminate]|].
      discriminate. }
  cbv zeta.
  assert (W : forall (b : bool) (A : Mokky) (r : Request),
             snd (fst (if b then (A, Some r, Some HttpError)
                       else (A, Some r, None))) = Some r)
    by (now intros []).
  rewrite W. split; [split; [auto | discriminate]|].
  intros req [= <-].
  destruct (query telegramID R) as [|u q]; cbn;
    repeat split; try reflexivity; try apply usernameOf_nonempty; eauto.
Qed.

Lemma saveMessage_appends_two_turns_witness :
  exists req,
    snd (fst (saveMessage 42 "hi" "yo"
                {| UserID := 42; UserUsername := ""; FirstName := "Ann" |}
                (Sample.store 1)))
    = Some req
    /\ Messages (bodyOf req)
       = [{| MessageRole := "user"; MessageText := "m" |};
          {| MessageRole := "user"; MessageText := "hi" |};
          {| MessageRole := "model"; MessageText := "yo" |}]
    /\ Username (bodyOf req) = "Ann".
Proof.
  eexists. split; [reflexivity|].
  destruct (proj2 (saveMessage_appends_two_turns 42 "hi" "yo"
                     {| UserID := 42; UserUsername := ""; FirstName := "Ann" |}
                     (Sample.store 1)) _ eq_refl)
    as (A & _ & B & _).
  split; [exact A | exact B].
Defined.

(** ** The environment file *)

Lemma plain_ascii (c : ascii) :
  plain c = true ->
  (nat_of_ascii c < 128)%nat /\ isAsciiSpace c = false.
Proof.
  unfold plain. intro H. apply andb_true_iff in H. destruct H as [A B].
  apply Nat.ltb_lt in A. apply negb_true_iff in B. auto.
Qed.

(** A plain byte is neither the first nor the last byte of the encoding of
    a white-space rune. *)
Lemma plain_no_space2 (c b : ascii) :
  plain c = true -> isSpace2 c b = false /\ isSpace2 b c = false.
Proof.
  intro H. destruct (plain_ascii c H) as [L _]. unfold isSpace2. split.
  - destruct (Nat.eqb_spec (nat_of_ascii c) 194); [lia | reflexivity].
  - destruct (Nat.eqb_spec (nat_of_ascii c) 133); [lia|].
    destruct (Nat.eqb_spec (nat_of_ascii c) 160); [lia|].
    apply andb_false_r.
Qed.

Lemma plain_no_space3 (c a b : ascii) :
  plain c = true -> isSpace3 c a b = false /\ isSpace3 a b c = false.
Proof.
  intro H. destruct (plain_ascii c H) as [L _]. unfold isSpace3. split.
  - destruct (Nat.eqb_spec (nat_of_ascii c) 225); [lia|].
    destruct (Nat.eqb_spec (nat_of_ascii c) 226); [lia|].
    destruct (Nat.eqb_spec (nat_of_ascii c) 227); [lia|].
    reflexivity.
  - destruct (Nat.eqb_spec (nat_of_ascii c) 128); [lia|].
    destruct (Nat.eqb_spec (nat_of_ascii c) 159); [lia|].
    destruct (Nat.eqb_spec (nat_of_ascii c) 168); [lia|].
    destruct (Nat.eqb_spec (nat_of_ascii c) 169); [lia|].
    destruct (Nat.eqb_spec (nat_of_ascii c) 175); [lia|].
    destruct (Nat.leb_spec 128 (nat_of_ascii c)); [lia|].
    cbn. now rewrite !andb_false_r.
Qed.

Lemma trimLeftSpace_plain (c : ascii) (l : list ascii) :
  plain c = true -> trimLeftSpace (c :: l) = c :: l.
Proof.
  intro H. destruct (plain_ascii c H) as [_ S]. cbn [trimLeftSpace].
  rewrite S. destruct l as [|b [|d l]]; [reflexivity| |].
  - now rewrite (proj1 (plain_no_space2 c b H)).
  - now rewrite (proj1 (plain_no_space2 c b H)),
                (proj1 (plain_no_space3 c b d H)).
Qed.

Lemma trimLeftSpaceRev_plain (c : ascii) (l : list ascii) :
  plain c = true -> trimLeftSpaceRev (c :: l) = c :: l.
Proof.
  intro H. destruct (plain_ascii c H) as [_ S]. cbn [trimLeftSpaceRev].
  rewrite S. destruct l as [|b [|a l]]; [reflexivity| |].
  - now rewrite (proj2 (plain_no_space2 c b H)).
  - now rewrite (proj2 (plain_no_space2 c b H)),
                (proj2 (plain_no_space3 c a b H)).
Qed.

Lemma trimLeftSpace_blanks (pad l : list ascii) :
  forallb isAsciiSpace pad = true ->
  trimLeftSpace (pad ++ l) = trimLeftSpace l.
Proof.
  induction pad as [|a pad IH]; cbn [forallb app]; [reflexivity|].
  intro H. apply andb_true_iff in H. destruct H as [A P].
  cbn [trimLeftSpace]. rewrite A. now apply IH.
Qed.

Lemma trimLeftSpaceRev_blanks (pad l : list ascii) :
  forallb isAsciiSpace pad = true ->
  trimLeftSpaceRev (pad ++ l) = trimLeftSpaceRev l.
Proof.
  induction pad as [|a pad IH]; cbn [forallb app]; [reflexivity|].
  intro H. apply andb_true_iff in H. destruct H as [A P].
  cbn [trimLeftSpaceRev]. rewrite A. now apply IH.
Qed.

(** Trimming removes bytes at the ends only: what is left was there. *)
Lemma trimLeftSpace_incl (n : nat) :
  forall l, (List.length l <= n)%nat -> incl (trimLeftSpace l) l.
Proof.
  induction n as [|n IH]; intros l Hl.
  - destruct l; [apply incl_refl | cbn in Hl; lia].
  - destruct l as [|a r]; [apply incl_refl|].
    cbn [trimLeftSpace]. cbn in Hl.
    destruct (isAsciiSpace a).
    { apply incl_tl. apply IH. lia. }
    destruct r as [|b r2]; [apply incl_refl|].
    destruct (isSpace2 a b).
    { do 2 apply incl_tl. apply IH. cbn in Hl. lia. }
    destruct r2 as [|c r3]; [apply incl_refl|].
    destruct (isSpace3 a b c); [|apply incl_refl].
    do 3 apply incl_tl. apply IH. cbn in Hl. lia.
Qed.

Lemma trimLeftSpaceRev_incl (n : nat) :
  forall l, (List.length l <= n)%nat -> incl (trimLeftSpaceRev l) l.
Proof.
  induction n as [|n IH]; intros l Hl.
  - destruct l; [apply incl_refl | cbn in Hl; lia].
  - destruct l as [|a r]; [apply incl_refl|].
    cbn [trimLeftSpaceRev]. cbn in Hl.
    destruct (isAsciiSpace a).
    { apply incl_tl. apply IH. lia. }
    destruct r as [|b r2]; [apply incl_refl|].
    destruct (isSpace2 b a).
    { do 2 apply incl_tl. apply IH. cbn in Hl. lia. }
    destruct r2 as [|c r3]; [apply incl_refl|].
    destruct (isSpace3 c b a); [|apply incl_refl].
    do 3 apply incl_tl. apply IH. cbn in Hl. lia.
Qed.

Lemma trimSpace_incl (l : list ascii) : incl (trimSpace l) l.
Proof.
  unfold trimSpace. intros x Hx. apply in_rev in Hx.
  apply (trimLeftSpaceRev_incl _ _ (le_n _)) in Hx. apply in_rev in Hx.
  now apply (trimLeftSpace_incl _ _ (le_n _)) in Hx.
Qed.

(** Trailing white space is never trimmed past a plain byte. *)
Lemma trimLeftSpaceRev_keeps (c : ascii) (n : nat) :
  plain c = true ->
  forall x, (List.length x <= n)%nat ->
            exists y, trimLeftSpaceRev (x ++ [c]) = (y ++ [c])%list.
Proof.
  intro H. induction n as [|n IH]; intros x Hx.
  - destruct x; [|cbn in Hx; lia]. exists []. now apply trimLeftSpaceRev_plain.
  - destruct x as [|a x1].
    { exists []. now apply trimLeftSpaceRev_plain. }
    cbn in Hx. cbn [app trimLeftSpaceRev].
    destruct (isAsciiSpace a).
    { apply IH. lia. }
    destruct x1 as [|b x2]; cbn [app].
    { rewrite (proj1 (plain_no_space2 c a H)). now exists [a]. }
    destruct (isSpace2 b a).
    { apply IH. cbn in Hx. lia. }
    destruct x2 as [|d x3]; cbn [app].
    { rewrite (proj1 (plain_no_space3 c b a H)). now exists [a; b]. }
    destruct (isSpace3 d b a).
    { apply IH. cbn in Hx. lia. }
    now exists (a :: b :: d :: x3).
Qed.

Lemma list_of_append (a b : string) :
  list_ascii_of_string (a ++ b)
  = (list_ascii_of_string a ++ list_ascii_of_string b)%list.
Proof. induction a as [|c a IH]; cbn; [reflexivity | now rewrite IH]. Qed.

Lemma blanks_forallb (s : string) :
  blanks s = forallb isAsciiSpace (list_ascii_of_string s).
Proof. induction s as [|c s IH]; cbn; [reflexivity | now rewrite IH]. Qed.

Lemma mem_existsb (c : ascii) (s : string) :
  Strings.mem c s = existsb (Ascii.eqb c) (list_ascii_of_string s).
Proof. induction s as [|d s IH]; cbn; [reflexivity | now rewrite IH]. Qed.

Lemma mem_append (c : ascii) (a b : string) :
  Strings.mem c (a ++ b) = Strings.mem c a || Strings.mem c b.
Proof.
  induction a as [|d a IH]; cbn; [reflexivity|].
  now rewrite IH, orb_assoc.
Qed.

Lemma blanks_append (a b : string) :
  blanks (a ++ b) = blanks a && blanks b.
Proof.
  induction a as [|d a IH]; cbn; [reflexivity|].
  now rewrite IH, andb_assoc.
Qed.

(** White space holds no byte that is plain. *)
Lemma blanks_mem (c : ascii) (s : string) :
  plain c = true -> blanks s = true -> Strings.mem c s = false.
Proof.
  intros Hc. induction s as [|d s IH]; cbn; [reflexivity|].
  intro H. apply andb_true_iff in H. destruct H as [Hd Hs].
  rewrite (IH Hs), orb_false_r. apply Ascii.eqb_neq. intros ->.
  destruct (plain_ascii d Hc) as [_ N]. congruence.
Qed.

Lemma TrimSpace_mem (c : ascii) (s : string) :
  Strings.mem c s = false -> Strings.mem c (TrimSpace s) = false.
Proof.
  rewrite !mem_existsb. unfold TrimSpace.
  rewrite list_ascii_of_string_of_list_ascii.
  intro H. apply not_true_is_false. intro T.
  apply existsb_exists in T. destruct T as (x & Hx & Ex).
  apply trimSpace_incl in Hx.
  assert (existsb (Ascii.eqb c) (list_ascii_of_string s) = true)
    by (apply existsb_exists; eauto).
  congruence.
Qed.

Lemma forallb_reversed {A : Type} (f : A -> bool) (l : list A) :
  forallb f (rev l) = forallb f l.
Proof.
  induction l as [|a l IH]; cbn; [reflexivity|].
  rewrite forallb_app, IH. cbn. rewrite andb_true_r. apply andb_comm.
Qed.

Lemma trimSpace_tight (p q r : list ascii) (c : ascii) :
  forallb isAsciiSpace p = true ->
  forallb isAsciiSpace q = true ->
  plain c = true -> plain (last r c) = true ->
  trimSpace (p ++ (c :: r) ++ q) = c :: r.
Proof.
  intros Hp Hq Hc Hl. unfold trimSpace.
  rewrite trimLeftSpace_blanks by exact Hp.
  cbn [app]. rewrite trimLeftSpace_plain by exact Hc.
  change (c :: (r ++ q)%list) with ((c :: r) ++ q)%list.
  rewrite rev_app_distr.
  rewrite trimLeftSpaceRev_blanks by (now rewrite forallb_reversed).
  assert (E : exists x, c :: r = (x ++ [last r c])%list).
  { exists (removelast (c :: r)).
    rewrite (app_removelast_last c (l := c :: r)) at 1 by discriminate.
    f_equal. f_equal. destruct r; [reflexivity|].
    cbn [last]. reflexivity. }
  destruct E as [x E]. rewrite E at 1. rewrite rev_app_distr. cbn [rev app].
  rewrite trimLeftSpaceRev_plain by exact Hl.
  change (last r c :: rev x) with (rev [last r c] ++ rev x)%list.
  rewrite <- rev_app_distr, rev_involutive. now rewrite <- E.
Qed.

Lemma tight_cases (s : string) :
  tight s = true ->
  exists c r, list_ascii_of_string s = c :: r
              /\ plain c = true /\ plain (last r c) = true.
Proof.
  unfold tight. destruct (list_ascii_of_string s) as [|c r]; [discriminate|].
  intro H. apply andb_true_iff in H. destruct H. eauto.
Qed.

Lemma TrimSpace_tight (p body q : string) :
  blanks p = true -> blanks q = true -> tight body = true ->
  TrimSpace (p ++ body ++ q) = body.
Proof.
  intros Hp Hq Hb. destruct (tight_cases body Hb) as (c & r & E & Hc & Hl).
  unfold TrimSpace. rewrite !list_of_append, E.
  rewrite trimSpace_tight; try assumption;
    try (now rewrite <- blanks_forallb).
  rewrite <- E. apply string_of_list_ascii_of_string.
Qed.

Lemma TrimSpace_blanks (p : string) : blanks p = true -> TrimSpace p = "".
Proof.
  intro H. unfold TrimSpace, trimSpace.
  rewrite <- (app_nil_r (list_ascii_of_string p)).
  rewrite trimLeftSpace_blanks by (now rewrite <- blanks_forallb).
  reflexivity.
Qed.

(** A text whose first byte after the white space is plain keeps it. *)
Lemma TrimSpace_first (pad : string) (c : ascii) (s : string) :
  blanks pad = true -> plain c = true ->
  exists t, TrimSpace (pad ++ String c s) = String c t.
Proof.
  intros Hp Hc. unfold TrimSpace, trimSpace.
  rewrite list_of_append.
  rewrite trimLeftSpace_blanks by (now rewrite <- blanks_forallb).
  cbn [list_ascii_of_string]. rewrite trimLeftSpace_plain by exact Hc.
  cbn [rev].
  destruct (trimLeftSpaceRev_keeps c _ Hc (rev (list_ascii_of_string s))
              (le_n _)) as [y ->].
  rewrite rev_app_distr. cbn. eauto.
Qed.

Lemma cut_none (s : string) : Strings.mem "="%char s = false -> cut s = None.
Proof.
  induction s as [|c s IH]; cbn [cut Strings.mem]; [reflexivity|].
  intro H. apply orb_false_iff in H. destruct H as [Hc Hs].
  rewrite Ascii.eqb_sym, Hc. now rewrite (IH Hs).
Qed.

Lemma cut_first (a b : string) :
  Strings.mem "="%char a = false -> cut (a ++ "=" ++ b) = Some (a, b).
Proof.
  change ("=" ++ b) with (String "="%char b).
  induction a as [|c a IH]; cbn [cut Strings.mem append]; [reflexivity|].
  intro H. apply orb_false_iff in H. destruct H as [Hc Ha].
  rewrite Ascii.eqb_sym, Hc. now rewrite (IH Ha).
Qed.

(** The name that [cut] yields holds no [=]. *)
Lemma cut_name (s a b : string) :
  cut s = Some (a, b) -> Strings.mem "="%char a = false.
Proof.
  revert a. induction s as [|c s IH]; intro a; cbn [cut]; [discriminate|].
  destruct (Ascii.eqb c "=") eqn:Ec.
  - now intros [= <- _].
  - destruct (cut s) as [[a' b']|]; [|discriminate].
    intros [= <- <-]. cbn [Strings.mem]. rewrite Ascii.eqb_sym, Ec.
    now apply IH.
Qed.

Lemma last_cons_indep (y : list ascii) :
  forall a c d, last (a :: y) c = last (a :: y) d.
Proof.
  induction y as [|b y IH]; intros a c d; [reflexivity|].
  change (last (b :: y) c = last (b :: y) d). apply IH.
Qed.

Lemma last_after (x y : list ascii) (c d : ascii) :
  last (x ++ d :: y) c = last y d.
Proof.
  induction x as [|a x IH]; cbn [app].
  - destruct y as [|b y]; [reflexivity|].
    change (last (b :: y) c = last (b :: y) d). apply last_cons_indep.
  - rewrite <- IH. destruct (x ++ d :: y)%list eqn:E;
      [destruct x; discriminate | reflexivity].
Qed.

Lemma tight_append (a m b : string) :
  tight a = true -> tight b = true -> tight (a ++ m ++ b) = true.
Proof.
  intros Ha Hb.
  destruct (tight_cases a Ha) as (c & r & Ea & Hc & _).
  destruct (tight_cases b Hb) as (d & r' & Eb & _ & Hd).
  unfold tight. rewrite !list_of_append, Ea, Eb. cbn [app].
  rewrite Hc. rewrite app_assoc, last_after. exact Hd.
Qed.

Lemma HasPrefix_hash (key rest : string) :
  key <> "" -> Strings.HasPrefix key "#" = false ->
  Strings.HasPrefix (key ++ rest) "#" = false.
Proof.
  unfold Strings.HasPrefix. destruct key as [|c key]; [contradiction|].
  intros _. cbn [prefix append].
  destruct (ascii_dec "#" c); [|reflexivity].
  now destruct key.
Qed.

Lemma tight_nonempty (s : string) : tight s = true -> s <> "".
Proof. now destruct s. Qed.

(** A line that is a tight body between white space is read as its body. *)
Lemma envLine_body (p body q : string) :
  blanks p = true -> blanks q = true -> tight body = true ->
  Strings.HasPrefix body "#" = false ->
  envLine (p ++ body ++ q)
  = match cut body with
    | Some (a, b) => Some (TrimSpace a, TrimSpace b)
    | None => None
    end.
Proof.
  intros Hp Hq Hb Hh. unfold envLine.
  rewrite (TrimSpace_tight p body q Hp Hq Hb), Hh.
  destruct body; [discriminate | reflexivity].
Qed.

(** What the loader reads on a line [name=value] between white space. *)
Lemma envLine_format (p1 p2 p3 p4 key value : string) :
  blanks p1 = true -> blanks p2 = true ->
  blanks p3 = true -> blanks p4 = true ->
  tight key = true ->
  Strings.mem "="%char key = false ->
  Strings.HasPrefix key "#" = false ->
  value = "" \/ tight value = true ->
  envLine (p1 ++ key ++ p2 ++ "=" ++ p3 ++ value ++ p4) = Some (key, value).
Proof.
  intros H1 H2 H3 H4 Hk He Hh Hv.
  assert (Hkp : Strings.mem "="%char (key ++ p2) = false).
  { rewrite mem_append, He. cbn. now apply blanks_mem. }
  assert (Tk : TrimSpace (key ++ p2) = key)
    by exact (TrimSpace_tight "" key p2 eq_refl H2 Hk).
  destruct Hv as [->|Hv].
  - replace (p1 ++ key ++ p2 ++ "=" ++ p3 ++ "" ++ p4)
      with (p1 ++ (key ++ p2 ++ "=") ++ (p3 ++ p4))
      by (cbn; now rewrite !append_assoc).
    rewrite envLine_body.
    + replace (key ++ p2 ++ "=") with ((key ++ p2) ++ "=" ++ "")
        by (now rewrite append_assoc).
      rewrite cut_first by exact Hkp. now rewrite Tk.
    + exact H1.
    + now rewrite blanks_append, H3, H4.
    + apply (tight_append key p2 "="); [exact Hk | reflexivity].
    + apply HasPrefix_hash; [now apply tight_nonempty | exact Hh].
  - replace (p1 ++ key ++ p2 ++ "=" ++ p3 ++ value ++ p4)
      with (p1 ++ (key ++ (p2 ++ "=" ++ p3) ++ value) ++ p4)
      by (cbn; now rewrite !append_assoc).
    rewrite envLine_body.
    + replace (key ++ (p2 ++ "=" ++ p3) ++ value)
        with ((key ++ p2) ++ "=" ++ (p3 ++ value))
        by (cbn; now rewrite !append_assoc).
      rewrite cut_first by exact Hkp. rewrite Tk.
      pose proof (TrimSpace_tight p3 value "" H3 eq_refl Hv) as Tv.
      rewrite append_empty_r in Tv. now rewrite Tv.
    + exact H1.
    + exact H4.
    + now apply tight_append.
    + apply HasPrefix_hash; [now apply tight_nonempty | exact Hh].
Qed.

(** X14. A line [name=value] sets the name to the value as they are
    written, whatever the ASCII white space around the name, around the
    value and around the line: for a name without [=] that does not start
    with [#], and a value that may hold [=] and inner white space or be
    empty, neither holding a NUL byte, loading the line adds exactly that
    setting to the environment, where the name then has that value. *)
Theorem env_line_round_trip :
  forall (p1 p2 p3 p4 key value : string) (env : Environ),
    blanks p1 = true -> blanks p2 = true ->
    blanks p3 = true -> blanks p4 = true ->
    tight key = true ->
    Strings.mem "="%char key = false ->
    Strings.HasPrefix key "#" = false ->
    value = "" \/ tight value = true ->
    Strings.mem "000"%char key = false ->
    Strings.mem "000"%char value = false ->
    let text := p1 ++ key ++ p2 ++ "=" ++ p3 ++ value ++ p4 in
    loadEnvFile (Some [text]) env = (key, value) :: env
    /\ Getenv key (loadEnvFile (Some [text]) env) = value.
Proof.
  intros p1 p2 p3 p4 key value env H1 H2 H3 H4 Hk He Hh Hv Nk Nv text.
  assert (L : loadEnvFile (Some [text]) env = (key, value) :: env).
  { subst text. cbn [loadEnvFile fold_left].
    rewrite (envLine_format p1 p2 p3 p4 key value H1 H2 H3 H4 Hk He Hh Hv).
    unfold Setenv. rewrite He, Nk, Nv.
    pose proof (tight_nonempty key Hk) as Hne.
    destruct key; [contradiction | reflexivity]. }
  split; [exact L|].
  rewrite L. cbn [Getenv]. now rewrite String.eqb_refl.
Qed.

Lemma env_line_round_trip_witness :
  loadEnvFile (Some ["  KEY = some value=x  "]) [("KEY", "old")]
  = [("KEY", "some value=x"); ("KEY", "old")]
  /\ Getenv "EMPTY" (loadEnvFile (Some ["EMPTY="]) [("EMPTY", "old")]) = "".
Proof.
  split.
  - refine (proj1 (env_line_round_trip "  " " " " " "  " "KEY" "some value=x"
                     [("KEY", "old")] _ _ _ _ _ _ _ _ _ _));
      try reflexivity. now right.
  - refine (proj2 (env_line_round_trip "" "" "" "" "EMPTY" ""
                     [("EMPTY", "old")] _ _ _ _ _ _ _ _ _ _));
      try reflexivity. now left.
Defined.

Lemma envLine_skipped (text : string) : skipped text -> envLine text = None.
Proof.
  intros [pad Hp|pad rest Hp|t Hm]; unfold envLine.
  - now rewrite (TrimSpace_blanks pad Hp).
  - destruct (TrimSpace_first pad "#" rest Hp eq_refl) as [t E].
    change ("#" ++ rest) with (String "#"%char rest). rewrite E.
    replace (Strings.HasPrefix (String "#" t) "#") with true
      by (unfold Strings.HasPrefix; cbn; now destruct t).
    now rewrite orb_true_r.
  - rewrite (cut_none _ (TrimSpace_mem _ _ Hm)).
    now destruct (_ || _).
Qed.

(** X15. Blank lines, comment lines (a [#] after optional white space,
    whatever follows, an [=] included) and lines without [=] set nothing: a
    file made of such lines only, like a file that cannot be opened, leaves
    the environment as it was. *)
Theorem skipped_lines_set_nothing :
  forall (ls : list string) (env : Environ),
    Forall skipped ls ->
    loadEnvFile (Some ls) env = env /\ loadEnvFile None env = env.
Proof.
  intros ls env H. split; [|reflexivity].
  cbn. induction H as [|text ls Ht _ IH]; [reflexivity|].
  cbn [fold_left]. now rewrite (envLine_skipped text Ht).
Qed.

Lemma skipped_lines_set_nothing_witness :
  loadEnvFile (Some [""; "   "; "# TOKEN=abc"; "  #x"; "TOKEN"]) [("A", "1")]
  = [("A", "1")].
Proof.
  refine (proj1 (skipped_lines_set_nothing _ [("A", "1")] _)).
  repeat apply Forall_cons; [| | | | |apply Forall_nil].
  - exact (skipped_blank "" eq_refl).
  - exact (skipped_blank "   " eq_refl).
  - exact (skipped_comment "" " TOKEN=abc" eq_refl).
  - exact (skipped_comment "  " "x" eq_refl).
  - exact (skipped_no_equals "TOKEN" eq_refl).
Defined.

(** The name a line sets holds no [=]. *)
Lemma envLine_name (text key value : string) :
  envLine text = Some (key, value) -> Strings.mem "="%char key = false.
Proof.
  unfold envLine. destruct (_ || _); [discriminate|].
  destruct (cut (TrimSpace text)) as [[a b]|] eqn:C; [|discriminate].
  intros [= <- _]. apply TrimSpace_mem. exact (cut_name _ _ _ C).
Qed.

(** X16. A later line of the file overrides the earlier ones: after the
    file is loaded, the name set by its last line has the value of that
    line (for a name that is not empty, without NUL in name and value),
    and every other name has the value it had before that line. *)
Theorem last_line_wins :
  forall (ls : list string) (text key value : string) (env : Environ),
    envLine text = Some (key, value) ->
    key <> "" ->
    Strings.mem "000"%char key = false ->
    Strings.mem "000"%char value = false ->
    let before := loadEnvFile (Some ls) env in
    let after := loadEnvFile (Some (ls ++ [text])%list) env in
    Getenv key after = value
    /\ forall other, other <> key -> Getenv other after = Getenv other before.
Proof.
  intros ls text key value env He Hk Hn Hv before after.
  subst before after. cbn [loadEnvFile].
  rewrite fold_left_app. cbn [fold_left]. rewrite He.
  unfold Setenv. rewrite (envLine_name _ _ _ He), Hn, Hv.
  destruct key as [|c key]; [contradiction|]. cbn [String.length Nat.eqb orb].
  cbn [Getenv]. rewrite String.eqb_refl. split; [reflexivity|].
  intros other Ho. apply not_eq_sym in Ho. apply String.eqb_neq in Ho.
  now rewrite Ho.
Qed.

Lemma last_line_wins_witness :
  Getenv "A" (loadEnvFile (Some ["A=1"; "B = 2 "; "A=3"]) []) = "3"
  /\ Getenv "B" (loadEnvFile (Some ["A=1"; "B = 2 "; "A=3"]) []) = "2".
Proof.
  destruct (last_line_wins ["A=1"; "B = 2 "] "A=3" "A" "3" [])
    as [A B]; try reflexivity; try discriminate.
  split; [exact A|]. exact (B "B" ltac:(discriminate)).
Defined.

(** ** The voice handler *)

(** X17. From the scanner on, the voice handler behaves as the text
    handler does on the transcription whenever the loop returns early or
    the answer is not empty: same calls, same log, same result.  On an empty
    answer it never ends silently and never edits: it makes exactly one
    reply, with the error text when the status is not 200 and with its
    apology otherwise, and returns the error of that reply. *)
Theorem voice_handler_follows_text_handler :
  forall (U : string -> option GeminiResponse) (E : Env) (telegramID : Z)
         (transcription : string) (resp : Response) (v0 : Vars),
    let voice := aggregateVoice U E telegramID transcription resp v0 in
    let text := aggregate U E telegramID transcription resp v0 in
    (forall v e, scan U E (lines resp) v0 = Return v e -> voice = text)
    /\ (forall v, scan U E (lines resp) v0 = Next v ->
                  fullResponse v <> "" -> voice = text)
    /\ (forall v, scan U E (lines resp) v0 = Next v ->
                  fullResponse v = "" ->
                  let said := if (StatusCode resp =? 200)%Z
                              then voiceSorryText else errorText in
                  calls (fst voice)
                  = (calls v ++ [Reply said (replyResult E said)])%list
                  /\ snd voice
                     = if replyResult E said then None else Some SendError).
Proof.
  intros U E telegramID transcription resp v0 voice text.
  subst voice text. unfold aggregateVoice, aggregate.
  split; [|split].
  - intros v e ->. reflexivity.
  - intros v -> Hne. unfold finishVoice, finish.
    apply length_positive in Hne. now rewrite Hne.
  - intros v -> He. unfold finishVoice. rewrite He.
    cbn [String.length Nat.ltb Nat.leb].
    destruct (StatusCode resp =? 200)%Z; cbn; auto.
Qed.

Lemma voice_handler_follows_text_handler_witness :
  let E := Sample.env [0; Sample.ms 100]%Z true true in
  aggregateVoice Json.Unmarshal E 42 "hello" 
    (Sample.response [Sample.event "Hi"; Sample.event "!"] false) (start [] [])
  = aggregate Json.Unmarshal E 42 "hello"
      (Sample.response [Sample.event "Hi"; Sample.event "!"] false)
      (start [] [])
  /\ calls (fst (aggregateVoice Json.Unmarshal E 42 "hello"
                   (Sample.response [Sample.event ""] false) (start [] [])))
     = [Send "" (Some 7%Z) (Some 0%Z); Reply voiceSorryText true].
Proof.
  cbv zeta. split.
  - refine (proj1 (proj2 (voice_handler_follows_text_handler Json.Unmarshal
                            (Sample.env [0; Sample.ms 100]%Z true true)
                            42 "hello"
                            (Sample.response [Sample.event "Hi";
                                              Sample.event "!"] false)
                            (start [] [])))
              (varsOf (scan Json.Unmarshal
                         (Sample.env [0; Sample.ms 100]%Z true true)
                         [Sample.event "Hi"; Sample.event "!"] (start [] [])))
              _ _).
    + vm_compute. reflexivity.
    + vm_compute. discriminate.
  - refine (proj1 (proj2 (proj2 (voice_handler_follows_text_handler
                                   Json.Unmarshal
                                   (Sample.env [0; Sample.ms 100]%Z true true)
                                   42 "hello"
                                   (Sample.response [Sample.event ""] false)
                                   (start [] [])))
                     (varsOf (scan Json.Unmarshal
                                (Sample.env [0; Sample.ms 100]%Z true true)
                                [Sample.event ""] (start [] [])))
                     _ _)).
    + vm_compute. reflexivity.
    + vm_compute. reflexivity.
Defined.
